(** * Teeko2Player (game.py): a shallow embedding and its properties

    The player of game.py picks its moves with a depth-bounded alpha-beta
    search over 5x5 boards.  This development embeds the search core
    (succ, game_value, heuristic_game_value, max_value, min_value,
    make_move) and states the properties of the specification over it.

    Modelling conventions.
    - A cell is a one-character Python string: an [ascii].  A board is a list
      of rows, each a list of cells, exactly as the nested Python list.
    - Python indexing is partial: an index past the end raises IndexError and
      a negative index counts from the end.  [py_index] and [py_setitem]
      write this out; a raised exception is [None] (or [Raise] inside a loop).
    - Python numbers that mix int and float (scores, alpha, beta) are exact
      rationals [Q]; a float literal such as 0.05 is the rational 5/100.
    - Loops with early [return] are [for_], a fold whose body says whether
      to go on, to return or to raise.
    - [copy.deepcopy] and item assignment are modelled twice: on values
      (section "The player") and on a store of list objects (module
      [Store]), where aliasing is visible. *)

From Stdlib Require Import ZArith QArith Qabs Lqa Ascii String List Lia.
From stdpp Require Import base option list gmap.

Local Open Scope Z_scope.

(** ** Python lists, ranges and loops *)

(** [l[i]]: IndexError ([None]) out of range, negative indices wrap once. *)
Definition py_index {A : Type} (l : list A) (i : Z) : option A :=
  let n := Z.of_nat (length l) in
  if 0 <=? i then l !! Z.to_nat i
  else if - n <=? i then l !! Z.to_nat (n + i)
  else None.

(** [l[i] = x]: the updated list, IndexError ([None]) out of range. *)
Definition py_setitem {A : Type} (l : list A) (i : Z) (x : A) : option (list A) :=
  let n := Z.of_nat (length l) in
  if 0 <=? i then (if i <? n then Some (<[Z.to_nat i := x]> l) else None)
  else if - n <=? i then Some (<[Z.to_nat (n + i) := x]> l)
  else None.

(** [range(a, b)] and [range(n)]. *)
Definition py_range (a b : Z) : list Z :=
  map (fun k : nat => a + Z.of_nat k) (seq 0 (Z.to_nat (b - a))).

Definition range (n : Z) : list Z := py_range 0 n.

(** [x in range(n)]. *)
Definition in_range (x n : Z) : bool := (0 <=? x) && (x <? n).

(** The three ways a loop body can end. *)
Inductive flow (S R : Type) : Type :=
| Continue (s : S)
| Return (r : R)
| Raise.
Arguments Continue {S R} s.
Arguments Return {S R} r.
Arguments Raise {S R}.

(** [for x in xs: body], threading the loop's variables [s]. *)
Fixpoint for_ {X S R : Type} (xs : list X) (body : X -> S -> flow S R) (s : S)
  : flow S R :=
  match xs with
  | [] => Continue s
  | x :: xs' =>
      match body x s with
      | Continue s' => for_ xs' body s'
      | Return r => Return r
      | Raise => Raise
      end
  end.

(** The returned value changed by [g]. *)
Definition flow_map {S R R' : Type} (g : R -> R') (fl : flow S R) : flow S R' :=
  match fl with
  | Continue s => Continue s
  | Return r => Return (g r)
  | Raise => Raise
  end.

(** An expression that may raise, inside a loop body. *)
Definition try {A S R : Type} (o : option A) (k : A -> flow S R) : flow S R :=
  match o with
  | Some a => k a
  | None => Raise
  end.

Notation "'let?' x := o 'in' k" := (try o (fun x => k))
  (at level 10, x name, o at level 100, k at level 200, only parsing).

(** The value of a function whose loops left [fl], falling through to
    [return dflt s] when no loop returned. *)
Definition finish {S R : Type} (fl : flow S R) (dflt : S -> R) : option R :=
  match fl with
  | Continue s => Some (dflt s)
  | Return r => Some r
  | Raise => None
  end.

(** Builtin [max(a, b)] and [min(a, b)] on two arguments: the first one
    unless the second is strictly better. *)
Definition Qltb (x y : Q) : bool :=
  match (x ?= y)%Q with Lt => true | _ => false end.

Definition Qgeb (x y : Q) : bool := negb (Qltb x y).

Definition py_max (a b : Q) : Q := if Qltb a b then b else a.
Definition py_min (a b : Q) : Q := if Qltb b a then b else a.

(** ** The player *)

Abbreviation cell := ascii.
Abbreviation board := (list (list cell)).

(** A move is a list of (row, col) tuples: [[(row, col)]] in the drop
    phase, [[(row, col), (source_row, source_col)]] afterwards. *)
Abbreviation move := (list (Z * Z)).

Definition empty : cell := " "%char.
Definition black : cell := "b"%char.
Definition red : cell := "r"%char.

(** The attributes of a Teeko2Player object that the search reads. *)
Record Teeko2Player := {
  my_piece : cell;
  opp : cell;
  drop_phase_check : Z
}.

Definition pieces : list cell := [black; red].

(** [__init__], with the outcome of [random.choice] as an argument. *)
Definition init (choice : cell) : Teeko2Player :=
  {| my_piece := choice;
     opp := if Ascii.eqb choice red then black else red;
     drop_phase_check := 0 |}.

(** [state[row][col]] *)
Definition cell_at (state : board) (row col : Z) : option cell :=
  r ← py_index state row; py_index r col.

(** [state[row][col] = x] on board values: the row is replaced by the
    updated row. *)
Definition set_cell (state : board) (row col : Z) (x : cell) : option board :=
  r ← py_index state row;
  r' ← py_setitem r col x;
  py_setitem state row r'.

(** *** game_value *)

(** [1 if x == self.my_piece else -1] *)
Definition winner (p : Teeko2Player) (x : cell) : Z :=
  if Ascii.eqb x (my_piece p) then 1 else -1.

(** [a != ' ' and a == b == c == d], the operands read left to right and
    only as far as the chained comparison goes. *)
Definition line4 (a b c d : option cell) : option bool :=
  x ← a;
  if Ascii.eqb x empty then Some false else
  y ← b;
  if negb (Ascii.eqb x y) then Some false else
  z ← c;
  if negb (Ascii.eqb y z) then Some false else
  w ← d;
  Some (Ascii.eqb z w).

(** [a != ' ' and m == ' ' and a == b == c == d] *)
Definition box4 (a m b c d : option cell) : option bool :=
  x ← a;
  if Ascii.eqb x empty then Some false else
  u ← m;
  if negb (Ascii.eqb u empty) then Some false else
  y ← b;
  if negb (Ascii.eqb x y) then Some false else
  z ← c;
  if negb (Ascii.eqb y z) then Some false else
  w ← d;
  Some (Ascii.eqb z w).

(** [if cond: return 1 if a == self.my_piece else -1] *)
Definition win_if (p : Teeko2Player) (cond : option bool) (a : option cell)
  : flow unit Z :=
  let? c := cond in
  if c : bool then (let? x := a in Return (winner p x)) else Continue tt.

Definition horizontal (p : Teeko2Player) (state : board) : flow unit Z :=
  for_ state (fun row =>
    for_ (range 2) (fun i _ =>
      win_if p
        (line4 (py_index row i) (py_index row (i+1))
               (py_index row (i+2)) (py_index row (i+3)))
        (py_index row i))) tt.

Definition vertical (p : Teeko2Player) (state : board) : flow unit Z :=
  for_ (range 5) (fun col =>
    for_ (range 2) (fun i _ =>
      win_if p
        (line4 (cell_at state i col) (cell_at state (i+1) col)
               (cell_at state (i+2) col) (cell_at state (i+3) col))
        (cell_at state i col))) tt.

Definition diagonal (p : Teeko2Player) (state : board) : flow unit Z :=
  for_ (range 2) (fun row =>
    for_ (range 2) (fun col _ =>
      win_if p
        (line4 (cell_at state row col) (cell_at state (row+1) (col+1))
               (cell_at state (row+2) (col+2)) (cell_at state (row+3) (col+3)))
        (cell_at state row col))) tt.

Definition antidiagonal (p : Teeko2Player) (state : board) : flow unit Z :=
  for_ (range 2) (fun row =>
    for_ (range 2) (fun col _ =>
      win_if p
        (line4 (cell_at state row (4-col)) (cell_at state (row+1) (3-col))
               (cell_at state (row+2) (2-col)) (cell_at state (row+3) (1-col)))
        (cell_at state row (4-col)))) tt.

Definition corners (p : Teeko2Player) (state : board) : flow unit Z :=
  for_ (range 3) (fun row =>
    for_ (range 3) (fun col _ =>
      win_if p
        (box4 (cell_at state row col) (cell_at state (row+1) (col+1))
              (cell_at state row (col+2)) (cell_at state (row+2) col)
              (cell_at state (row+2) (col+2)))
        (cell_at state row col))) tt.

(** One loop nest after the other; the first [return] wins. *)
Definition then_ {R : Type} (a b : flow unit R) : flow unit R :=
  match a with
  | Continue _ => b
  | _ => a
  end.

Definition game_value (p : Teeko2Player) (state : board) : option Z :=
  finish
    (then_ (horizontal p state)
    (then_ (vertical p state)
    (then_ (diagonal p state)
    (then_ (antidiagonal p state)
           (corners p state)))))
    (fun _ => 0).

(** *** succ *)

(** [copy.deepcopy(state)] on board values. *)
Definition deepcopy (state : board) : board := state.

Definition succ (p : Teeko2Player) (state : board) (turn_piece : cell)
  : option (list (move * board)) :=
  let successors : list (move * board) := [] in
  if drop_phase_check p <? 9 then
    finish
      (for_ (range 5) (fun row =>
         for_ (range 5) (fun col successors =>
           let? x := cell_at state row col in
           if Ascii.eqb x empty then
             let new_state := deepcopy state in
             let? new_state := set_cell new_state row col turn_piece in
             Continue (successors ++ [([(row, col)], new_state)])
           else Continue successors))
         successors)
      (fun successors => successors)
  else
    finish
      (for_ (range 5) (fun row =>
         for_ (range 5) (fun col successors =>
           let? x := cell_at state row col in
           if Ascii.eqb x turn_piece then
             for_ (py_range (-1) 2) (fun i =>
               for_ (py_range (-1) 2) (fun j successors =>
                 if negb (i =? 0) || negb (j =? 0) then
                 if in_range (row+i) 5 then
                 if in_range (col+j) 5 then
                   let? y := cell_at state (row+i) (col+j) in
                   if Ascii.eqb y empty then
                     let new_state := deepcopy state in
                     let? new_state := set_cell new_state (row+i) (col+j) turn_piece in
                     let? new_state := set_cell new_state row col empty in
                     Continue (successors ++ [([(row+i, col+j); (row, col)], new_state)])
                   else Continue successors
                 else Continue successors
                 else Continue successors
                 else Continue successors))
               successors
           else Continue successors))
         successors)
      (fun successors => successors).

(** *** heuristic_game_value *)

Definition heuristic_game_value (p : Teeko2Player) (state : board) : option Q :=
  let heuristic_val : Q := 0%Q in
  if drop_phase_check p <? 3 then
    let a := 0.05%Q in
    let b := 0.1%Q in
    let c := 0.2%Q in
    let weight := [[c; c; c; c; c];
                   [c; b; b; b; c];
                   [c; b; a; b; c];
                   [c; b; b; b; c];
                   [c; c; c; c; c]] in
    finish
      (for_ (range 5) (fun row =>
         for_ (range 5) (fun col heuristic_val =>
           let? x := cell_at state row col in
           if Ascii.eqb x (my_piece p) then
             let? w := (r ← py_index weight row; py_index r col) in
             Continue (heuristic_val + w)%Q
           else
             let? y := cell_at state row col in
             if Ascii.eqb y (opp p) then
               let? w := (r ← py_index weight row; py_index r col) in
               Continue (heuristic_val - w)%Q
             else Continue heuristic_val))
         heuristic_val)
      (fun heuristic_val => heuristic_val)
  else Some heuristic_val.

(** *** max_value and min_value

    [depth] is a natural number: make_move, the only caller from outside,
    passes 2 and each level passes [depth-1] after testing [depth == 0]. *)

Fixpoint max_value (p : Teeko2Player) (depth : nat) (state : board)
    (alpha beta : Q) {struct depth} : option Q :=
  terminal_val ← game_value p state;
  if negb (terminal_val =? 0) then Some (inject_Z terminal_val)
  else match depth with
  | O => heuristic_game_value p state
  | S depth' =>
      successors ← succ p state (my_piece p);
      finish
        (for_ successors (fun '(move, successor) alpha =>
           let? v := min_value p depth' successor alpha beta in
           let alpha := py_max alpha v in
           if Qgeb alpha beta then Return beta else Continue alpha)
         alpha)
        (fun alpha => alpha)
  end

with min_value (p : Teeko2Player) (depth : nat) (state : board)
    (alpha beta : Q) {struct depth} : option Q :=
  terminal_val ← game_value p state;
  if negb (terminal_val =? 0) then Some (inject_Z terminal_val)
  else match depth with
  | O => heuristic_game_value p state
  | S depth' =>
      successors ← succ p state (opp p);
      finish
        (for_ successors (fun '(move, successor) beta =>
           let? v := max_value p depth' state alpha beta in
           let beta := py_min beta v in
           if Qgeb alpha beta then Return alpha else Continue beta)
         beta)
        (fun beta => beta)
  end.

(** *** make_move *)

(** The two statements that update the phase counter. *)
Definition count_turn (p : Teeko2Player) : Teeko2Player :=
  let d := drop_phase_check p + 2 in
  let d := if Ascii.eqb (my_piece p) black && (d =? 2) then d - 1 else d in
  {| my_piece := my_piece p; opp := opp p; drop_phase_check := d |}.

(** [make_move] returns the move; the player object it leaves behind is
    the second component. *)
Definition make_move (p : Teeko2Player) (state : board)
  : option (move * Teeko2Player) :=
  let p := count_turn p in
  successors ← succ p state (my_piece p);
  best ← py_index successors 0;
  r ← finish
        (for_ successors (fun '(move, successor) '(best_move, best_successor) =>
           let? v := min_value p 2 successor (-1000)%Q 1000%Q in
           let? w := min_value p 2 best_successor (-1000)%Q 1000%Q in
           if Qltb w v then Continue (move, successor)
           else Continue (best_move, best_successor))
         best)
        (fun best => fst best);
  Some (r, p).

(** ** Boards as list objects in a store

    A Python board is a list object whose items are references to row
    objects; [new_state[row][col] = x] updates a row object in place and
    every board that holds this row sees the update.  The store maps object
    identities to list objects; [copy.deepcopy] allocates fresh objects. *)

Module Store.

Definition loc := positive.

Inductive obj : Type :=
| Row (cells : list cell)
| Grid (rows : list loc).

Abbreviation store := (gmap loc obj).

Definition rows_of (h : store) (l : loc) : option (list loc) :=
  match h !! l with
  | Some (Grid rows) => Some rows
  | _ => None
  end.

Definition cells_of (h : store) (l : loc) : option (list cell) :=
  match h !! l with
  | Some (Row cells) => Some cells
  | _ => None
  end.

(** The identity of a new object. *)
Definition new_loc (h : store) : loc := fresh (dom h).

(** [state[row][col]] *)
Definition cell_at (h : store) (state : loc) (row col : Z) : option cell :=
  rows ← rows_of h state;
  r ← py_index rows row;
  cells ← cells_of h r;
  py_index cells col.

(** [state[row][col] = x]: the row object is updated in place. *)
Definition set_cell (h : store) (state : loc) (row col : Z) (x : cell)
  : option store :=
  rows ← rows_of h state;
  r ← py_index rows row;
  cells ← cells_of h r;
  cells' ← py_setitem cells col x;
  Some (<[r := Row cells']> h).

(** The items of a board copied one after the other; [memo] maps the rows
    copied so far to their copies, so that a row object that occurs twice is
    copied once.  The characters are immutable and shared. *)
Fixpoint copy_rows (h : store) (memo : gmap loc loc) (rows : list loc)
  : option (store * list loc) :=
  match rows with
  | [] => Some (h, [])
  | r :: rows' =>
      match memo !! r with
      | Some r' =>
          '(h', out) ← copy_rows h memo rows';
          Some (h', r' :: out)
      | None =>
          cells ← cells_of h r;
          let r' := new_loc h in
          '(h', out) ← copy_rows (<[r' := Row cells]> h) (<[r := r']> memo) rows';
          Some (h', r' :: out)
      end
  end.

(** [copy.deepcopy(state)] for a board: a new list object over copies of
    the rows.  Objects that are not boards are outside the model. *)
Definition deepcopy (h : store) (state : loc) : option (store * loc) :=
  rows ← rows_of h state;
  '(h', rows') ← copy_rows h ∅ rows;
  let l' := new_loc h' in
  Some (<[l' := Grid rows']> h', l').

(** [succ] on the store: the list of successors holds references to the
    new boards. *)
Definition succ (p : Teeko2Player) (h : store) (state : loc) (turn_piece : cell)
  : option (store * list (move * loc)) :=
  let successors : list (move * loc) := [] in
  if drop_phase_check p <? 9 then
    finish
      (for_ (range 5) (fun row =>
         for_ (range 5) (fun col '(h, successors) =>
           let? x := cell_at h state row col in
           if Ascii.eqb x empty then
             let? hn := deepcopy h state in
             let '(h, new_state) := hn in
             let? h := set_cell h new_state row col turn_piece in
             Continue (h, successors ++ [([(row, col)], new_state)])
           else Continue (h, successors)))
         (h, successors))
      (fun hs => hs)
  else
    finish
      (for_ (range 5) (fun row =>
         for_ (range 5) (fun col '(h, successors) =>
           let? x := cell_at h state row col in
           if Ascii.eqb x turn_piece then
             for_ (py_range (-1) 2) (fun i =>
               for_ (py_range (-1) 2) (fun j '(h, successors) =>
                 if negb (i =? 0) || negb (j =? 0) then
                 if in_range (row+i) 5 then
                 if in_range (col+j) 5 then
                   let? y := cell_at h state (row+i) (col+j) in
                   if Ascii.eqb y empty then
                     let? hn := deepcopy h state in
                     let '(h, new_state) := hn in
                     let? h := set_cell h new_state (row+i) (col+j) turn_piece in
                     let? h := set_cell h new_state row col empty in
                     Continue (h, successors ++ [([(row+i, col+j); (row, col)], new_state)])
                   else Continue (h, successors)
                 else Continue (h, successors)
                 else Continue (h, successors)
                 else Continue (h, successors)))
               (h, successors)
           else Continue (h, successors)))
         (h, successors))
      (fun hs => hs).

(** The board value that [l] denotes in [h]: [l] is a list of distinct
    row objects. *)
Definition board_at (h : store) (l : loc) (state : board) : Prop :=
  exists rows, rows_of h l = Some rows /\ NoDup rows /\
               mapM (cells_of h) rows = Some state.

(** The list object [l] and its rows are objects that [h0] does not hold:
    they were allocated after [h0]. *)
Definition apart (h0 h : store) (l : loc) : Prop :=
  h0 !! l = None /\
  forall rows r, rows_of h l = Some rows -> r ∈ rows -> h0 !! r = None.

(** The successors [es] in the store [h] denote the successors [vs] on
    board values, move by move, through boards allocated after [h0]. *)
Definition denotes (h0 h : store) (es : list (move * loc))
    (vs : list (move * board)) : Prop :=
  Forall2 (fun e v => e.1 = v.1 /\ board_at h e.2 v.2 /\ apart h0 h e.2) es vs.

(** What the loops of [succ] keep: the store grows from [h0] and the
    successors found so far denote those on board values. *)
Definition related (h0 : store) (vs : list (move * board))
    (hs : store * list (move * loc)) : Prop :=
  h0 ⊆ hs.1 /\ denotes h0 hs.1 hs.2 vs.

(** One loop simulates another: it goes on where the other goes on, in
    related states; the other never returns early. *)
Definition simulates {S1 S2 R1 R2 : Type} (Rel : S1 -> S2 -> Prop)
    (fl1 : flow S1 R1) (fl2 : flow S2 R2) : Prop :=
  match fl1 with
  | Continue s1 => exists s2, fl2 = Continue s2 /\ Rel s1 s2
  | Return _ => False
  | Raise => True
  end.

(** A board value laid out in a store, rows first. *)
Definition alloc_board (h : store) (state : board) : store * loc :=
  let '(h, rows) :=
    foldl (fun '(h, rows) cells =>
             let r := new_loc h in (<[r := Row cells]> h, rows ++ [r]))
          (h, []) state in
  let l := new_loc h in
  (<[l := Grid rows]> h, l).

End Store.

(** ** The search as the specification words it

    The specification has the minimizing node evaluate each generated
    successor as a maximizing node.  [min_value_spec] follows these words;
    [min_value] above follows the source.  They differ in the first
    argument of the recursive call only. *)

Fixpoint max_value_spec (p : Teeko2Player) (depth : nat) (state : board)
    (alpha beta : Q) {struct depth} : option Q :=
  terminal_val ← game_value p state;
  if negb (terminal_val =? 0) then Some (inject_Z terminal_val)
  else match depth with
  | O => heuristic_game_value p state
  | S depth' =>
      successors ← succ p state (my_piece p);
      finish
        (for_ successors (fun '(move, successor) alpha =>
           let? v := min_value_spec p depth' successor alpha beta in
           let alpha := py_max alpha v in
           if Qgeb alpha beta then Return beta else Continue alpha)
         alpha)
        (fun alpha => alpha)
  end

with min_value_spec (p : Teeko2Player) (depth : nat) (state : board)
    (alpha beta : Q) {struct depth} : option Q :=
  terminal_val ← game_value p state;
  if negb (terminal_val =? 0) then Some (inject_Z terminal_val)
  else match depth with
  | O => heuristic_game_value p state
  | S depth' =>
      successors ← succ p state (opp p);
      finish
        (for_ successors (fun '(move, successor) beta =>
           let? v := max_value_spec p depth' successor alpha beta in
           let beta := py_min beta v in
           if Qgeb alpha beta then Return alpha else Continue beta)
         beta)
        (fun beta => beta)
  end.

(** ** Vocabulary of the properties *)

(** A 5x5 grid. *)
Definition wf_board (state : board) : Prop :=
  length state = 5%nat /\ Forall (fun row => length row = 5%nat) state.

(** Every cell holds ' ', 'b' or 'r'. *)
Definition valid_cells (state : board) : Prop :=
  Forall (Forall (fun c => c = empty \/ c = black \/ c = red)) state.

(** The two players own 'b' and 'r', one each, as [__init__] sets them. *)
Definition valid_player (p : Teeko2Player) : Prop :=
  (my_piece p = black /\ opp p = red) \/ (my_piece p = red /\ opp p = black).

(** The number of cells that hold [x]. *)
Definition count_cells (x : cell) (state : board) : nat :=
  list_sum (map (fun row => count_occ Ascii.ascii_dec row x) state).

(** The 25 coordinates in the order of [for row in range(5): for col in
    range(5)]. *)
Definition positions : list (Z * Z) :=
  flat_map (fun row => map (fun col => (row, col)) (range 5)) (range 5).

(** The nine pairs (i, j) of the two inner loops of [succ], (0, 0)
    included. *)
Definition offsets : list (Z * Z) :=
  flat_map (fun i => map (pair i) (py_range (-1) 2)) (py_range (-1) 2).

Definition in_grid (rc : Z * Z) : Prop :=
  0 <= rc.1 < 5 /\ 0 <= rc.2 < 5.

(** Chebyshev distance. *)
Definition chebyshev (a b : Z * Z) : Z :=
  Z.max (Z.abs (a.1 - b.1)) (Z.abs (a.2 - b.2)).

(** The successors that one cell gives in the drop phase: one if it is
    empty. *)
Definition placement (state : board) (turn_piece : cell) (rc : Z * Z)
  : list (move * board) :=
  match cell_at state rc.1 rc.2 with
  | Some x =>
      if Ascii.eqb x empty then
        match set_cell state rc.1 rc.2 turn_piece with
        | Some state' => [([(rc.1, rc.2)], state')]
        | None => []
        end
      else []
  | None => []
  end.

(** The successor that moving from [rc] by [ij] gives after the drop
    phase: one if the target is another cell of the grid and empty. *)
Definition slide (state : board) (turn_piece : cell) (rc ij : Z * Z)
  : list (move * board) :=
  if (negb (ij.1 =? 0) || negb (ij.2 =? 0))
     && in_range (rc.1 + ij.1) 5 && in_range (rc.2 + ij.2) 5 then
    match cell_at state (rc.1 + ij.1) (rc.2 + ij.2) with
    | Some y =>
        if Ascii.eqb y empty then
          match (s ← set_cell state (rc.1 + ij.1) (rc.2 + ij.2) turn_piece;
                 set_cell s rc.1 rc.2 empty) with
          | Some state' =>
              [([(rc.1 + ij.1, rc.2 + ij.2); (rc.1, rc.2)], state')]
          | None => []
          end
        else []
    | None => []
    end
  else [].

(** The successors that one cell gives after the drop phase. *)
Definition relocation (state : board) (turn_piece : cell) (rc : Z * Z)
  : list (move * board) :=
  match cell_at state rc.1 rc.2 with
  | Some x =>
      if Ascii.eqb x turn_piece then flat_map (slide state turn_piece rc) offsets
      else []
  | None => []
  end.

(** [m] places [turn_piece] on an empty cell of [state] and [state'] is
    the 5x5 board that differs from [state] in this cell only. *)
Definition places (state : board) (turn_piece : cell) (m : move)
    (state' : board) : Prop :=
  exists row col,
    m = [(row, col)] /\ in_grid (row, col) /\
    cell_at state row col = Some empty /\
    wf_board state' /\
    cell_at state' row col = Some turn_piece /\
    forall r c, in_grid (r, c) -> (r, c) <> (row, col) ->
                cell_at state' r c = cell_at state r c.

(** [m] moves a [turn_piece] of [state] to an empty cell next to it, and
    in [state'] the source is empty and the target holds the piece. *)
Definition relocates (state : board) (turn_piece : cell) (m : move)
    (state' : board) : Prop :=
  exists src dst,
    m = [dst; src] /\ in_grid src /\ in_grid dst /\ dst <> src /\
    chebyshev dst src <= 1 /\
    cell_at state src.1 src.2 = Some turn_piece /\
    cell_at state dst.1 dst.2 = Some empty /\
    cell_at state' src.1 src.2 = Some empty /\
    cell_at state' dst.1 dst.2 = Some turn_piece.

(** [state'] is a 5x5 board that differs from [state] in the two cells of
    [m] at most: the other cells, the cells of the other player among them,
    are the same, and every marker occurs as often as before. *)
Definition frames (state : board) (turn_piece : cell) (m : move)
    (state' : board) : Prop :=
  exists src dst,
    m = [dst; src] /\ wf_board state' /\
    cell_at state' src.1 src.2 = Some empty /\
    cell_at state' dst.1 dst.2 = Some turn_piece /\
    (forall rc, in_grid rc -> rc <> src -> rc <> dst ->
                cell_at state' rc.1 rc.2 = cell_at state rc.1 rc.2) /\
    (forall rc x, in_grid rc -> cell_at state rc.1 rc.2 = Some x ->
                  x <> turn_piece -> x <> empty ->
                  cell_at state' rc.1 rc.2 = Some x) /\
    (forall y, count_cells y state' = count_cells y state).

(** 'b' <-> 'r' on a cell, a board and a player. *)
Definition swap_cell (c : cell) : cell :=
  if Ascii.eqb c black then red
  else if Ascii.eqb c red then black
  else c.

Definition swap_board (state : board) : board := map (map swap_cell) state.

Definition swap_player (p : Teeko2Player) : Teeko2Player :=
  {| my_piece := opp p; opp := my_piece p;
     drop_phase_check := drop_phase_check p |}.

(** [v] is the value of a win of the marker in some cell of the board. *)
Definition won_by (p : Teeko2Player) (state : board) (v : Z) : Prop :=
  exists r x, r ∈ state /\ x ∈ r /\ x <> empty /\ v = winner p x.

(** Concentric weightings: [ring row col] is 0 at the centre, 1 on the ring
    around it and 2 on the border. *)
Definition ring (row col : Z) : Z := chebyshev (row, col) (2, 2).

(** The weights of the table that [heuristic_game_value] builds. *)
Definition weight_in_code (row col : Z) : Q :=
  if ring row col =? 0 then 0.05%Q
  else if ring row col =? 1 then 0.1%Q
  else 0.2%Q.

(** The weights that the specification (and the docstring) give. *)
Definition weight_in_spec (row col : Z) : Q :=
  if ring row col =? 0 then 0.2%Q
  else if ring row col =? 1 then 0.1%Q
  else 0.05%Q.

(** What one cell adds to a weighted positional score. *)
Definition cell_score (p : Teeko2Player) (w : Q) (x : option cell) : Q :=
  match x with
  | Some x =>
      if Ascii.eqb x (my_piece p) then w
      else if Ascii.eqb x (opp p) then (- w)%Q
      else 0%Q
  | None => 0%Q
  end.

(** The weighted sum over the 25 cells. *)
Definition weighted_sum (weight : Z -> Z -> Q) (p : Teeko2Player) (state : board) : Q :=
  fold_right Qplus 0%Q
    (map (fun rc => cell_score p (weight rc.1 rc.2) (cell_at state rc.1 rc.2))
         positions).

(** The board with [piece] on the given cells and nothing else. *)
Definition board_with (piece : cell) (on : list (Z * Z)) : board :=
  map (fun row =>
         map (fun col => if bool_decide ((row, col) ∈ on) then piece else empty)
             (range 5))
      (range 5).

Definition empty_board : board := board_with empty [].

(** The corners of the 3x3 square whose top left cell is (r, c). *)
Definition box_corners (r c : Z) : list (Z * Z) :=
  [(r, c); (r, c + 2); (r + 2, c); (r + 2, c + 2)].

(** ** Boards and players of the examples *)

Definition player_of (mine : cell) (dpc : Z) : Teeko2Player :=
  {| my_piece := mine;
     opp := if Ascii.eqb mine red then black else red;
     drop_phase_check := dpc |}.

Definition row_of_string (s : string) : list cell := list_ascii_of_string s.

(** 'b' has three in the bottom row and (4,3) free; 'r' has three pieces
    that form nothing. *)
Definition board_b_to_win : board :=
  map row_of_string ["     "; " r r "; "r    "; "     "; "bbb  "]%string.

(** 'r' has three in the top row and (0,3) free. *)
Definition board_r_threat : board :=
  map row_of_string ["rrr  "; "     "; "     "; "   b "; "b b  "]%string.

(** One 'b' in the centre. *)
Definition board_centre : board :=
  map row_of_string ["     "; "     "; "  b  "; "     "; "     "]%string.

(** One 'b' in a corner. *)
Definition board_corner : board :=
  map row_of_string ["b    "; "     "; "     "; "     "; "     "]%string.

(** Four pieces each, nobody has won. *)
Definition board_midgame : board :=
  map row_of_string ["    r"; " r r "; "r b  "; "     "; "bbb  "]%string.

(** The boards above as list objects in a store that holds nothing else. *)
Definition store_b_to_win : gmap Store.loc Store.obj * Store.loc :=
  Store.alloc_board ∅ board_b_to_win.

Definition store_midgame : gmap Store.loc Store.obj * Store.loc :=
  Store.alloc_board ∅ board_midgame.

(** Four 'b' in the top row. *)
Definition board_top_row : board :=
  map row_of_string ["bbbb "; "     "; "     "; "     "; "     "]%string.

(** 'b' holds the corners of the top left 3x3 square around an empty
    centre; 'r' has three in the last column. *)
Definition board_box : board :=
  map row_of_string ["b b  "; "    r"; "b b r"; "    r"; "     "]%string.

(** The same corners of 'b' around a centre that 'r' holds. *)
Definition board_box_blocked : board :=
  map row_of_string ["b b  "; " r  r"; "b b r"; "     "; "     "]%string.

(** ** place_piece and opponent_move

    Both work on [self.board].  On board values the board is an argument
    and the updated board the result; module [Board] below has them on the
    store, where [self.board] is a list object updated in place.  What
    opponent_move prints before it raises is not modelled. *)

(** The exceptions: IndexError, and the three that opponent_move raises,
    named after their messages. *)
Inductive error : Type :=
| IndexError
| NoPieceThere      (* "You don't have a piece there!" *)
| NotAdjacent       (* "Illegal move: Can only move to an adjacent space" *)
| IllegalMove.      (* "Illegal move detected" *)

(** An expression that may raise IndexError, then the rest. *)
Definition indexed {A B : Type} (o : option A) (k : A -> error + B) : error + B :=
  match o with
  | Some a => k a
  | None => inl IndexError
  end.

Definition place_piece (self_board : board) (move : move) (piece : cell)
  : option board :=
  b ← (if 1 <? Z.of_nat (length move) then
             src ← py_index move 1;
             set_cell self_board src.1 src.2 empty
           else Some self_board);
  dst ← py_index move 0;
  set_cell b dst.1 dst.2 piece.

Definition opponent_move (p : Teeko2Player) (self_board : board) (move : move)
  : error + board :=
  let validated : error + unit :=
    if 1 <? Z.of_nat (length move) then
      indexed (py_index move 1) (fun src =>
      let source_row := src.1 in
      let source_col := src.2 in
      indexed (cell_at self_board source_row source_col) (fun x =>
      if negb (Ascii.eqb x (opp p)) then inl NoPieceThere else
      indexed (py_index move 0) (fun dst =>
      if (1 <? Z.abs (source_row - dst.1)) || (1 <? Z.abs (source_col - dst.2))
      then inl NotAdjacent
      else inr tt)))
    else inr tt in
  match validated with
  | inl e => inl e
  | inr _ =>
      indexed (py_index move 0) (fun dst =>
      indexed (cell_at self_board dst.1 dst.2) (fun y =>
      if negb (Ascii.eqb y empty) then inl IllegalMove else
      indexed (place_piece self_board move (opp p)) inr))
  end.

(** [indexed] under a second name, for use beside its store version. *)
Definition indexed_value {A B : Type} := @indexed A B.

Module Board.

(** An expression on the store that may raise IndexError, then the rest;
    the store comes back with the exception. *)
Definition indexed {A B : Type} (h : gmap Store.loc Store.obj) (o : option A)
    (k : A -> gmap Store.loc Store.obj * (error + B))
  : gmap Store.loc Store.obj * (error + B) :=
  match o with
  | Some a => k a
  | None => (h, inl IndexError)
  end.

(** [place_piece] through the reference [board]: the store after it, also
    when the second assignment raises after the first was done. *)
Definition place_piece (h : gmap Store.loc Store.obj) (self_board : Store.loc)
    (move : move) (piece : cell)
  : gmap Store.loc Store.obj * (error + unit) :=
  let after_source : gmap Store.loc Store.obj * (error + unit) :=
    if 1 <? Z.of_nat (length move) then
      indexed h (py_index move 1) (fun src =>
      indexed h (Store.set_cell h self_board src.1 src.2 empty) (fun h =>
      (h, inr tt)))
    else (h, inr tt) in
  match after_source with
  | (h, inl e) => (h, inl e)
  | (h, inr _) =>
      indexed h (py_index move 0) (fun dst =>
      indexed h (Store.set_cell h self_board dst.1 dst.2 piece) (fun h =>
      (h, inr tt)))
  end.

Definition opponent_move (p : Teeko2Player) (h : gmap Store.loc Store.obj)
    (self_board : Store.loc) (move : move)
  : gmap Store.loc Store.obj * (error + unit) :=
  let validated : error + unit :=
    if 1 <? Z.of_nat (length move) then
      indexed_value (py_index move 1) (fun src =>
      let source_row := src.1 in
      let source_col := src.2 in
      indexed_value (Store.cell_at h self_board source_row source_col) (fun x =>
      if negb (Ascii.eqb x (opp p)) then inl NoPieceThere else
      indexed_value (py_index move 0) (fun dst =>
      if (1 <? Z.abs (source_row - dst.1)) || (1 <? Z.abs (source_col - dst.2))
      then inl NotAdjacent
      else inr tt)))
    else inr tt in
  match validated with
  | inl e => (h, inl e)
  | inr _ =>
      indexed h (py_index move 0) (fun dst =>
      indexed h (Store.cell_at h self_board dst.1 dst.2) (fun y =>
      if negb (Ascii.eqb y empty) then (h, inl IllegalMove) else
      place_piece h self_board move (opp p)))
  end.

End Board.

(** ** Vocabulary: winning patterns *)

(** The four directions of a line: along a row, along a column and along
    the two diagonals. *)
Definition directions : list (Z * Z) := [(0, 1); (1, 0); (1, 1); (1, -1)].

(** The four cells from [start] in direction [dir]. *)
Definition line_cells (start dir : Z * Z) : list (Z * Z) :=
  map (fun k => (start.1 + k * dir.1, start.2 + k * dir.2)) (range 4).

(** The cells [cells] lie in the grid and hold [x]. *)
Definition holds (state : board) (x : cell) (cells : list (Z * Z)) : Prop :=
  Forall (fun rc => in_grid rc /\ cell_at state rc.1 rc.2 = Some x) cells.

Definition has_line (state : board) (x : cell) : Prop :=
  exists start dir, dir ∈ directions /\ holds state x (line_cells start dir).

Definition has_box (state : board) (x : cell) : Prop :=
  exists r c, 0 <= r < 3 /\ 0 <= c < 3 /\
              holds state x (box_corners r c) /\
              cell_at state (r + 1) (c + 1) = Some empty.

(** The marker [x] has four in a line or the corners of a 3x3 square with
    an empty centre. *)
Definition wins (state : board) (x : cell) : Prop :=
  x <> empty /\ (has_line state x \/ has_box state x).

(** [v] is the value of a win of a marker that has a winning pattern. *)
Definition found (p : Teeko2Player) (state : board) (v : Z) : Prop :=
  exists x, wins state x /\ v = winner p x.

(** The cell at [rc] is empty. *)
Definition is_empty_at (state : board) (rc : Z * Z) : bool :=
  match cell_at state rc.1 rc.2 with
  | Some x => Ascii.eqb x empty
  | None => false
  end.

(** Moving [turn_piece] from [src] to [dst] is legal on [state]: both are
    cells of the grid next to each other, [src] holds the piece and [dst]
    is empty. *)
Definition legal_relocation (state : board) (turn_piece : cell)
    (src dst : Z * Z) : Prop :=
  in_grid src /\ in_grid dst /\ dst <> src /\ chebyshev dst src <= 1 /\
  cell_at state src.1 src.2 = Some turn_piece /\
  cell_at state dst.1 dst.2 = Some empty.

(** Two boards of the store are different list objects over different
    row objects. *)
Definition disjoint_boards (h : gmap Store.loc Store.obj) (l1 l2 : Store.loc)
  : Prop :=
  l1 <> l2 /\
  forall rows1 rows2 r,
    Store.rows_of h l1 = Some rows1 -> Store.rows_of h l2 = Some rows2 ->
    r ∈ rows1 -> r ∈ rows2 -> False.

(** The boards of the successors [es] are disjoint from the board [l] and
    from each other. *)
Definition separated (h : gmap Store.loc Store.obj) (l : Store.loc)
    (es : list (move * Store.loc)) : Prop :=
  (forall i e, es !! i = Some e -> disjoint_boards h l e.2) /\
  (forall i j e1 e2, i <> j -> es !! i = Some e1 -> es !! j = Some e2 ->
                     disjoint_boards h e1.2 e2.2).

(** What the loops of [succ] keep, with the separation of the boards. *)
Definition related_apart (h0 : gmap Store.loc Store.obj) (l : Store.loc)
    (vs : list (move * board))
    (hs : gmap Store.loc Store.obj * list (move * Store.loc)) : Prop :=
  Store.related h0 vs hs /\ separated hs.1 l hs.2.

(** The player object after [n] calls of make_move. *)
Definition after_turns (n : nat) (p : Teeko2Player) : Teeko2Player :=
  Nat.iter n count_turn p.

(** * Properties *)

(** ** Python lists *)

Section py_lists.
Context {A : Type}.
Implicit Types (l : list A) (i : Z) (x : A).

Lemma py_index_nonneg l i : 0 <= i -> py_index l i = l !! Z.to_nat i.
Proof. intros Hi. unfold py_index. by rewrite (proj2 (Z.leb_le 0 i) Hi). Qed.

Lemma py_index_is_Some l i :
  0 <= i < Z.of_nat (length l) -> is_Some (py_index l i).
Proof.
  intros [Hi Hlt]. rewrite py_index_nonneg by done.
  apply lookup_lt_is_Some. lia.
Qed.

Lemma py_index_elem_of l i x : py_index l i = Some x -> x ∈ l.
Proof.
  unfold py_index. repeat case_match; try done;
    intros Hl; apply list_elem_of_lookup; eauto.
Qed.

Lemma py_index_fmap {B} (f : A -> B) l i :
  py_index (map f l) i = f <$> py_index l i.
Proof.
  unfold py_index. rewrite length_map.
  repeat case_match; try done; apply (list_lookup_fmap f).
Qed.

Lemma py_setitem_nonneg l i x :
  0 <= i < Z.of_nat (length l) ->
  py_setitem l i x = Some (<[Z.to_nat i := x]> l).
Proof.
  intros [Hi Hlt]. unfold py_setitem.
  rewrite (proj2 (Z.leb_le 0 i) Hi). by rewrite (proj2 (Z.ltb_lt _ _) Hlt).
Qed.

Lemma py_setitem_Some_nonneg l i x l' :
  0 <= i -> py_setitem l i x = Some l' ->
  i < Z.of_nat (length l) /\ l' = <[Z.to_nat i := x]> l.
Proof.
  intros Hi. unfold py_setitem. rewrite (proj2 (Z.leb_le 0 i) Hi).
  destruct (i <? _) eqn:E; [|done]. apply Z.ltb_lt in E. by intros [= <-].
Qed.

Lemma py_setitem_length l i x l' :
  py_setitem l i x = Some l' -> length l' = length l.
Proof.
  unfold py_setitem. repeat case_match; try done;
    intros [= <-]; apply length_insert.
Qed.
End py_lists.

(** ** Loops *)

Section loops.
Context {X S R : Type}.
Implicit Types (xs : list X) (body : X -> S -> flow S R) (s : S).

Lemma for_app xs ys body s :
  for_ (xs ++ ys) body s =
  match for_ xs body s with
  | Continue s' => for_ ys body s'
  | Return r => Return r
  | Raise => Raise
  end.
Proof.
  revert s. induction xs as [|x xs IH]; intros s; simpl; [done|].
  destruct (body x s); auto.
Qed.

Lemma for_ext_in xs body1 body2 s :
  (forall x, x ∈ xs -> forall s, body1 x s = body2 x s) ->
  for_ xs body1 s = for_ xs body2 s.
Proof.
  revert s. induction xs as [|x xs IH]; intros s Hext; simpl; [done|].
  rewrite Hext by left. destruct (body2 x s); auto.
  apply IH. intros y Hy. apply Hext. by right.
Qed.

Lemma for_fmap {Y} (f : Y -> X) (ys : list Y) body s :
  for_ (map f ys) body s = for_ ys (fun y => body (f y)) s.
Proof.
  revert s. induction ys as [|y ys IH]; intros s; simpl; [done|].
  destruct (body (f y) s); auto.
Qed.

Lemma for_flow_map {R'} (g : R -> R') xs body s :
  for_ xs (fun x s => flow_map g (body x s)) s = flow_map g (for_ xs body s).
Proof.
  revert s. induction xs as [|x xs IH]; intros s; simpl; [done|].
  destruct (body x s); simpl; auto.
Qed.

(** A loop whose body always goes on is a left fold. *)
Lemma for_fold xs body (upd : X -> S -> S) s :
  (forall x, x ∈ xs -> forall s, body x s = Continue (upd x s)) ->
  for_ xs body s = Continue (foldl (fun s x => upd x s) s xs).
Proof.
  revert s. induction xs as [|x xs IH]; intros s Hb; simpl; [done|].
  rewrite Hb by left. apply IH. intros y Hy. apply Hb. by right.
Qed.

(** Where a loop returns, one run of its body returned. *)
Lemma for_Return xs body s r :
  for_ xs body s = Return r ->
  exists x s', x ∈ xs /\ body x s' = Return r.
Proof.
  revert s. induction xs as [|x xs IH]; intros s; simpl; [done|].
  destruct (body x s) as [s'| r' |] eqn:E; try done.
  - intros H. destruct (IH _ H) as (y & s'' & Hy & Hr).
    exists y, s''. split; [by right|done].
  - intros [= ->]. exists x, s. split; [by left|done].
Qed.

(** Where a loop falls through, every run of its body went on. *)
Lemma for_Continue_unit xs (body : X -> unit -> flow unit R) x :
  for_ xs body tt = Continue tt -> x ∈ xs -> body x tt = Continue tt.
Proof.
  induction xs as [|y xs IH]; simpl; [by intros _ ?%elem_of_nil|].
  destruct (body y tt) as [[]| |] eqn:E; try done.
  intros H [->|Hx]%elem_of_cons; auto.
Qed.

Lemma for_not_Raise xs body s :
  (forall x, x ∈ xs -> forall s, body x s <> Raise) ->
  for_ xs body s <> Raise.
Proof.
  revert s. induction xs as [|x xs IH]; intros s Hb; simpl; [done|].
  destruct (body x s) eqn:E; try done.
  - apply IH. intros y Hy. apply Hb. by right.
  - by destruct (Hb x ltac:(left) s).
Qed.
End loops.

Lemma then_flow_map {R R'} (g : R -> R') (a b : flow unit R) :
  then_ (flow_map g a) (flow_map g b) = flow_map g (then_ a b).
Proof. by destruct a. Qed.

Lemma finish_flow_map {S R R'} (g : R -> R') (fl : flow S R) (d : S -> R) (d' : S -> R') :
  (forall s, d' s = g (d s)) ->
  finish (flow_map g fl) d' = g <$> finish fl d.
Proof. intros Hd. destruct fl; simpl; [by rewrite Hd|done|done]. Qed.

(** ** Cells *)

Lemma cell_at_fmap (f : cell -> cell) (state : board) row col :
  cell_at (map (map f) state) row col = f <$> cell_at state row col.
Proof.
  unfold cell_at. rewrite py_index_fmap.
  destruct (py_index state row) as [r|]; simpl; [|done].
  apply py_index_fmap.
Qed.

Lemma cell_at_elem_of (state : board) row col x :
  cell_at state row col = Some x -> exists r, r ∈ state /\ x ∈ r.
Proof.
  unfold cell_at. destruct (py_index state row) as [r|] eqn:E; simpl; [|done].
  intros Hx. exists r. eauto using py_index_elem_of.
Qed.

Lemma swap_cell_involutive x : swap_cell (swap_cell x) = x.
Proof.
  unfold swap_cell.
  destruct (Ascii.eqb_spec x black) as [->|Hb]; [done|].
  destruct (Ascii.eqb_spec x red) as [->|Hr]; [done|].
  rewrite (proj2 (Ascii.eqb_neq _ _) Hb). by rewrite (proj2 (Ascii.eqb_neq _ _) Hr).
Qed.

Lemma swap_cell_eqb x y :
  Ascii.eqb (swap_cell x) (swap_cell y) = Ascii.eqb x y.
Proof.
  destruct (Ascii.eqb_spec x y) as [->|Hne]; [apply Ascii.eqb_refl|].
  apply Ascii.eqb_neq. intros Heq. apply Hne.
  by rewrite <-(swap_cell_involutive x), Heq, swap_cell_involutive.
Qed.

Lemma swap_cell_empty x : Ascii.eqb (swap_cell x) empty = Ascii.eqb x empty.
Proof. by rewrite <-(swap_cell_eqb x empty). Qed.

(** ** game_value: the five scans *)

Lemma line4_swap a b c d :
  line4 (swap_cell <$> a) (swap_cell <$> b) (swap_cell <$> c) (swap_cell <$> d)
  = line4 a b c d.
Proof.
  unfold line4. destruct a as [x|]; simpl; [|done].
  rewrite swap_cell_empty. destruct (Ascii.eqb x empty); [done|].
  destruct b as [y|]; simpl; [|done].
  rewrite swap_cell_eqb. destruct (Ascii.eqb x y); simpl; [|done].
  destruct c as [z|]; simpl; [|done].
  rewrite swap_cell_eqb. destruct (Ascii.eqb y z); simpl; [|done].
  destruct d as [w|]; simpl; [|done].
  by rewrite swap_cell_eqb.
Qed.

Lemma box4_swap a m b c d :
  box4 (swap_cell <$> a) (swap_cell <$> m) (swap_cell <$> b) (swap_cell <$> c)
       (swap_cell <$> d)
  = box4 a m b c d.
Proof.
  unfold box4. destruct a as [x|]; simpl; [|done].
  rewrite swap_cell_empty. destruct (Ascii.eqb x empty); [done|].
  destruct m as [u|]; simpl; [|done].
  rewrite swap_cell_empty. destruct (Ascii.eqb u empty); simpl; [|done].
  destruct b as [y|]; simpl; [|done].
  rewrite swap_cell_eqb. destruct (Ascii.eqb x y); simpl; [|done].
  destruct c as [z|]; simpl; [|done].
  rewrite swap_cell_eqb. destruct (Ascii.eqb y z); simpl; [|done].
  destruct d as [w|]; simpl; [|done].
  by rewrite swap_cell_eqb.
Qed.

Lemma line4_true a b c d :
  line4 a b c d = Some true ->
  exists x, x <> empty /\ a = Some x /\ b = Some x /\ c = Some x /\ d = Some x.
Proof.
  unfold line4. destruct a as [x|]; simpl; [|done].
  destruct (Ascii.eqb_spec x empty) as [|Hx]; [done|].
  destruct b as [y|]; simpl; [|done].
  destruct (Ascii.eqb_spec x y) as [<-|]; simpl; [|done].
  destruct c as [z|]; simpl; [|done].
  destruct (Ascii.eqb_spec x z) as [<-|]; simpl; [|done].
  destruct d as [w|]; simpl; [|done].
  destruct (Ascii.eqb_spec x w) as [<-|]; simpl; [|done].
  intros _. by exists x.
Qed.

Lemma box4_true a m b c d :
  box4 a m b c d = Some true ->
  exists x, x <> empty /\ a = Some x /\ m = Some empty /\
            b = Some x /\ c = Some x /\ d = Some x.
Proof.
  unfold box4. destruct a as [x|]; simpl; [|done].
  destruct (Ascii.eqb_spec x empty) as [|Hx]; [done|].
  destruct m as [u|]; simpl; [|done].
  destruct (Ascii.eqb_spec u empty) as [->|]; simpl; [|done].
  destruct b as [y|]; simpl; [|done].
  destruct (Ascii.eqb_spec x y) as [<-|]; simpl; [|done].
  destruct c as [z|]; simpl; [|done].
  destruct (Ascii.eqb_spec x z) as [<-|]; simpl; [|done].
  destruct d as [w|]; simpl; [|done].
  destruct (Ascii.eqb_spec x w) as [<-|]; simpl; [|done].
  intros _. by exists x.
Qed.

Lemma winner_swap_both p x :
  valid_player p -> winner (swap_player p) (swap_cell x) = winner p x.
Proof.
  intros [[Hm Ho]|[Hm Ho]]; unfold winner, swap_cell; simpl; rewrite Hm, Ho.
  - destruct (Ascii.eqb_spec x black) as [->|Hb]; [done|].
    destruct (Ascii.eqb_spec x red) as [->|Hr]; [done|].
    by rewrite (proj2 (Ascii.eqb_neq _ _) Hr).
  - destruct (Ascii.eqb_spec x black) as [->|Hb]; [done|].
    destruct (Ascii.eqb_spec x red) as [->|Hr]; [done|].
    by rewrite (proj2 (Ascii.eqb_neq _ _) Hb).
Qed.

Lemma winner_swap_player p x :
  valid_player p -> x = black \/ x = red ->
  winner (swap_player p) x = - winner p x.
Proof.
  intros [[Hm Ho]|[Hm Ho]] [->| ->]; unfold winner; simpl; by rewrite Hm, Ho.
Qed.

Lemma win_if_swap_both p cond a :
  valid_player p ->
  win_if (swap_player p) cond (swap_cell <$> a) = win_if p cond a.
Proof.
  intros Hp. unfold win_if, try. destruct cond as [[]|]; try done.
  destruct a as [x|]; simpl; [|done]. by rewrite winner_swap_both.
Qed.

Lemma win_if_swap_player p cond a :
  valid_player p ->
  (cond = Some true -> exists x, a = Some x /\ (x = black \/ x = red)) ->
  win_if (swap_player p) cond a = flow_map Z.opp (win_if p cond a).
Proof.
  intros Hp Ha. unfold win_if, try. destruct cond as [[]|]; try done.
  destruct Ha as (x & -> & Hx); [done|]. simpl. by rewrite winner_swap_player.
Qed.

Lemma valid_cells_elem_of state r x :
  valid_cells state -> r ∈ state -> x ∈ r -> x <> empty ->
  x = black \/ x = red.
Proof.
  intros Hv Hr Hx Hne.
  pose proof (proj1 (Forall_forall _ _) Hv r Hr) as Hrow.
  pose proof (proj1 (Forall_forall _ _) Hrow x Hx) as Hc. simpl in Hc. tauto.
Qed.

Lemma valid_cells_cell_at state row col x :
  valid_cells state -> cell_at state row col = Some x -> x <> empty ->
  x = black \/ x = red.
Proof.
  intros Hv Hx Hne. apply cell_at_elem_of in Hx as (r & Hr & Hx).
  eauto using valid_cells_elem_of.
Qed.

Section scans.
Variable p : Teeko2Player.
Hypothesis Hp : valid_player p.

Ltac both := apply for_ext_in; intros ? _ []; apply for_ext_in; intros ? _ [];
             rewrite ?cell_at_fmap, ?py_index_fmap, ?line4_swap, ?box4_swap;
             by apply win_if_swap_both.

Lemma horizontal_swap_both state :
  horizontal (swap_player p) (swap_board state) = horizontal p state.
Proof. unfold horizontal, swap_board. rewrite for_fmap. both. Qed.

Lemma vertical_swap_both state :
  vertical (swap_player p) (swap_board state) = vertical p state.
Proof. unfold vertical, swap_board. both. Qed.

Lemma diagonal_swap_both state :
  diagonal (swap_player p) (swap_board state) = diagonal p state.
Proof. unfold diagonal, swap_board. both. Qed.

Lemma antidiagonal_swap_both state :
  antidiagonal (swap_player p) (swap_board state) = antidiagonal p state.
Proof. unfold antidiagonal, swap_board. both. Qed.

Lemma corners_swap_both state :
  corners (swap_player p) (swap_board state) = corners p state.
Proof. unfold corners, swap_board. both. Qed.

Lemma game_value_swap_both state :
  game_value (swap_player p) (swap_board state) = game_value p state.
Proof.
  unfold game_value.
  by rewrite horizontal_swap_both, vertical_swap_both, diagonal_swap_both,
    antidiagonal_swap_both, corners_swap_both.
Qed.

Variable state : board.
Hypothesis Hv : valid_cells state.

Ltac flip := rewrite <-for_flow_map; apply for_ext_in; intros ? ? [];
             rewrite <-for_flow_map; apply for_ext_in; intros ? _ [];
             apply win_if_swap_player; [done|];
             let Hc := fresh in
             intros Hc;
             first [ apply line4_true in Hc | apply box4_true in Hc ];
             destruct Hc as (? & ? & ? & _);
             eexists; split; [eassumption|].

Lemma horizontal_swap_player :
  horizontal (swap_player p) state = flow_map Z.opp (horizontal p state).
Proof.
  unfold horizontal. flip.
  eauto using valid_cells_elem_of, py_index_elem_of.
Qed.

Lemma vertical_swap_player :
  vertical (swap_player p) state = flow_map Z.opp (vertical p state).
Proof. unfold vertical. flip. eauto using valid_cells_cell_at. Qed.

Lemma diagonal_swap_player :
  diagonal (swap_player p) state = flow_map Z.opp (diagonal p state).
Proof. unfold diagonal. flip. eauto using valid_cells_cell_at. Qed.

Lemma antidiagonal_swap_player :
  antidiagonal (swap_player p) state = flow_map Z.opp (antidiagonal p state).
Proof. unfold antidiagonal. flip. eauto using valid_cells_cell_at. Qed.

Lemma corners_swap_player :
  corners (swap_player p) state = flow_map Z.opp (corners p state).
Proof. unfold corners. flip. eauto using valid_cells_cell_at. Qed.

Lemma game_value_swap_player :
  game_value (swap_player p) state = Z.opp <$> game_value p state.
Proof.
  unfold game_value.
  rewrite horizontal_swap_player, vertical_swap_player, diagonal_swap_player,
    antidiagonal_swap_player, corners_swap_player.
  rewrite !then_flow_map. by apply finish_flow_map.
Qed.
End scans.

Lemma swap_player_involutive p : swap_player (swap_player p) = p.
Proof. by destruct p. Qed.

Lemma valid_player_swap p : valid_player p -> valid_player (swap_player p).
Proof. unfold valid_player. simpl. tauto. Qed.

Lemma game_value_swap_board p state :
  valid_player p -> valid_cells state ->
  game_value p (swap_board state) = Z.opp <$> game_value p state.
Proof.
  intros Hp Hv.
  rewrite <-(swap_player_involutive p) at 1.
  rewrite game_value_swap_both by by apply valid_player_swap.
  by apply game_value_swap_player.
Qed.

(** ** Ranges and well-formed boards *)

Lemma elem_of_py_range a b x : x ∈ py_range a b <-> a <= x < b.
Proof.
  unfold py_range. rewrite list_elem_of_fmap. split.
  - intros (k & -> & Hk%elem_of_seq). lia.
  - intros Hx. exists (Z.to_nat (x - a)). split; [lia|].
    apply elem_of_seq. lia.
Qed.

Lemma elem_of_range n x : x ∈ range n <-> 0 <= x < n.
Proof. apply elem_of_py_range. Qed.

Lemma wf_board_row state row i :
  wf_board state -> row ∈ state -> 0 <= i < 5 -> is_Some (py_index row i).
Proof.
  intros [_ Hrows] Hrow Hi. apply py_index_is_Some.
  rewrite (proj1 (Forall_forall _ _) Hrows row Hrow). lia.
Qed.

Lemma wf_board_cell_at state row col :
  wf_board state -> 0 <= row < 5 -> 0 <= col < 5 ->
  is_Some (cell_at state row col).
Proof.
  intros Hwf Hr Hc. unfold cell_at.
  destruct (py_index_is_Some state row) as [r Hrow]; [destruct Hwf; lia|].
  rewrite Hrow. simpl. eapply wf_board_row; eauto using py_index_elem_of.
Qed.

(** ** game_value returns, and what it returns *)

Lemma win_if_not_Raise p cond a :
  is_Some cond -> is_Some a -> win_if p cond a <> Raise.
Proof. intros [[] ->] [x ->]; done. Qed.

Lemma line4_is_Some a b c d :
  is_Some a -> is_Some b -> is_Some c -> is_Some d -> is_Some (line4 a b c d).
Proof.
  intros [x ->] [y ->] [z ->] [w ->]. unfold line4. simpl.
  repeat (case_match; simpl; eauto).
Qed.

Lemma box4_is_Some a m b c d :
  is_Some a -> is_Some m -> is_Some b -> is_Some c -> is_Some d ->
  is_Some (box4 a m b c d).
Proof.
  intros [x ->] [u ->] [y ->] [z ->] [w ->]. unfold box4. simpl.
  repeat (case_match; simpl; eauto).
Qed.

Lemma win_if_Return p cond a v :
  win_if p cond a = Return v ->
  cond = Some true /\ exists x, a = Some x /\ v = winner p x.
Proof.
  unfold win_if, try. destruct cond as [[]|]; try done.
  destruct a as [x|]; [|done]. intros [= <-]. eauto.
Qed.

Section game_value_on_boards.
Variables (p : Teeko2Player) (state : board).

Local Abbreviation won_by := (won_by p state).

Ltac returned :=
  let H := fresh in
  intros H;
  apply for_Return in H as (? & ? & _ & H);
  apply for_Return in H as (? & ? & _ & H);
  apply win_if_Return in H as (H & ? & ? & ->);
  first [ apply line4_true in H | apply box4_true in H ];
  destruct H as (? & ? & ? & _); simplify_eq.

Lemma horizontal_Return v : horizontal p state = Return v -> won_by v.
Proof.
  unfold horizontal. intros H.
  apply for_Return in H as (row & ? & Hrow & H).
  apply for_Return in H as (? & ? & _ & H).
  apply win_if_Return in H as (H & ? & ? & ->).
  apply line4_true in H as (? & ? & ? & _). simplify_eq.
  eexists _, _. eauto using py_index_elem_of.
Qed.

Ltac by_cell :=
  match goal with
  | H : cell_at _ _ _ = Some _ |- _ =>
      apply cell_at_elem_of in H as (? & ? & ?); eexists _, _; eauto
  end.

Lemma vertical_Return v : vertical p state = Return v -> won_by v.
Proof. unfold vertical. returned. by_cell. Qed.

Lemma diagonal_Return v : diagonal p state = Return v -> won_by v.
Proof. unfold diagonal. returned. by_cell. Qed.

Lemma antidiagonal_Return v : antidiagonal p state = Return v -> won_by v.
Proof. unfold antidiagonal. returned. by_cell. Qed.

Lemma corners_Return v : corners p state = Return v -> won_by v.
Proof. unfold corners. returned. by_cell. Qed.

Lemma game_value_Some v :
  game_value p state = Some v -> v = 0 \/ won_by v.
Proof.
  unfold game_value, then_, finish.
  repeat case_match; try done; intros [= <-]; eauto;
    right; simplify_eq;
    eauto using horizontal_Return, vertical_Return, diagonal_Return,
      antidiagonal_Return, corners_Return.
Qed.

Hypothesis Hwf : wf_board state.

Ltac reads :=
  apply for_not_Raise; intros ? ?%elem_of_range ?;
  apply for_not_Raise; intros ? ?%elem_of_range ?;
  apply win_if_not_Raise;
  [ first [ apply line4_is_Some | apply box4_is_Some ] |];
  apply wf_board_cell_at; (done || lia).

Lemma horizontal_not_Raise : horizontal p state <> Raise.
Proof.
  unfold horizontal.
  apply for_not_Raise; intros row Hrow ?.
  apply for_not_Raise; intros ? ?%elem_of_range ?.
  apply win_if_not_Raise; [apply line4_is_Some|];
    (eapply wf_board_row; [done|done|lia]).
Qed.

Lemma vertical_not_Raise : vertical p state <> Raise.
Proof. unfold vertical. reads. Qed.

Lemma diagonal_not_Raise : diagonal p state <> Raise.
Proof. unfold diagonal. reads. Qed.

Lemma antidiagonal_not_Raise : antidiagonal p state <> Raise.
Proof. unfold antidiagonal. reads. Qed.

Lemma corners_not_Raise : corners p state <> Raise.
Proof. unfold corners. reads. Qed.

(** On a 5x5 board no read fails: game_value returns. *)
Lemma game_value_is_Some : is_Some (game_value p state).
Proof.
  pose proof horizontal_not_Raise. pose proof vertical_not_Raise.
  pose proof diagonal_not_Raise. pose proof antidiagonal_not_Raise.
  pose proof corners_not_Raise.
  unfold game_value, then_, finish. repeat case_match; try done; eauto.
Qed.
End game_value_on_boards.

Lemma winner_my_piece p : winner p (my_piece p) = 1.
Proof. unfold winner. by rewrite Ascii.eqb_refl. Qed.

Lemma winner_other p x : x <> my_piece p -> winner p x = -1.
Proof. intros H. unfold winner. by rewrite (proj2 (Ascii.eqb_neq _ _) H). Qed.

Lemma winner_nonzero p x : winner p x <> 0.
Proof. unfold winner. by case_match. Qed.

Lemma line4_same x : x <> empty ->
  line4 (Some x) (Some x) (Some x) (Some x) = Some true.
Proof.
  intros H. unfold line4. simpl.
  rewrite (proj2 (Ascii.eqb_neq _ _) H). by rewrite !Ascii.eqb_refl.
Qed.

Lemma box4_same x : x <> empty ->
  box4 (Some x) (Some empty) (Some x) (Some x) (Some x) = Some true.
Proof.
  intros H. unfold box4. simpl.
  rewrite (proj2 (Ascii.eqb_neq _ _) H). by rewrite !Ascii.eqb_refl.
Qed.

(** Four equal markers at the start of the top row: the first test of the
    first scan returns. *)
Lemma game_value_top_row p state x :
  x <> empty ->
  (forall col, 0 <= col < 4 -> cell_at state 0 col = Some x) ->
  game_value p state = Some (winner p x).
Proof.
  intros Hx Hrow.
  pose proof (Hrow 0 ltac:(lia)) as H0. pose proof (Hrow 1 ltac:(lia)) as H1.
  pose proof (Hrow 2 ltac:(lia)) as H2. pose proof (Hrow 3 ltac:(lia)) as H3.
  destruct state as [|row rest]; [done|].
  unfold cell_at in *. simpl in *.
  unfold game_value, horizontal.
  change (range 2) with [0; 1]. cbn [for_].
  change (0 + 1) with 1. change (0 + 2) with 2. change (0 + 3) with 3.
  rewrite H0, H1, H2, H3, line4_same by done. done.
Qed.

Lemma corners_found p state r c x :
  0 <= r < 3 -> 0 <= c < 3 -> x <> empty ->
  (forall rc, rc ∈ box_corners r c -> cell_at state rc.1 rc.2 = Some x) ->
  cell_at state (r + 1) (c + 1) = Some empty ->
  corners p state <> Continue tt.
Proof.
  intros Hr Hc Hx Hbox Hmid Hgo.
  unfold corners in Hgo.
  apply for_Continue_unit with (x := r) in Hgo; [|by apply elem_of_range].
  apply for_Continue_unit with (x := c) in Hgo; [|by apply elem_of_range].
  assert (forall a b, (a, b) ∈ box_corners r c -> cell_at state a b = Some x)
    as Hbox' by (intros a b; apply (Hbox (a, b))).
  rewrite (Hbox' r c), (Hbox' r (c + 2)), (Hbox' (r + 2) c),
    (Hbox' (r + 2) (c + 2)), Hmid, box4_same in Hgo
    by first [assumption | apply list_elem_of_In; simpl; auto 6].
  done.
Qed.

(** C8, as amended.  On a board of ' ', 'b' and 'r' cells, for a player
    who owns 'b' or 'r' against the other: swapping the labels on the board
    flips the sign of game_value, swapping my_piece and the opponent flips
    it too, and doing both at once leaves the result as it was. *)
Theorem game_value_swap_symmetry p state :
  valid_player p -> valid_cells state ->
  game_value p (swap_board state) = Z.opp <$> game_value p state /\
  game_value (swap_player p) state = Z.opp <$> game_value p state /\
  game_value (swap_player p) (swap_board state) = game_value p state.
Proof.
  intros Hp Hv. split_and!.
  - by apply game_value_swap_board.
  - by apply game_value_swap_player.
  - by apply game_value_swap_both.
Qed.

Lemma game_value_swap_symmetry_witness :
  game_value (player_of black 1) (swap_board board_top_row)
    = Z.opp <$> game_value (player_of black 1) board_top_row /\
  game_value (swap_player (player_of black 1)) board_top_row
    = Z.opp <$> game_value (player_of black 1) board_top_row /\
  game_value (swap_player (player_of black 1)) (swap_board board_top_row)
    = game_value (player_of black 1) board_top_row.
Proof.
  apply (game_value_swap_symmetry (player_of black 1) board_top_row).
  - left. split; reflexivity.
  - repeat first [apply Forall_nil_2 | apply Forall_cons_2]; auto.
Defined.

(** C8 as the specification words it fails: with four 'b' in the top row
    and 'b' as my_piece, game_value is 1 before and after both swaps. *)
Lemma game_value_swap_both_no_flip :
  game_value (player_of black 1) board_top_row = Some 1 /\
  game_value (swap_player (player_of black 1)) (swap_board board_top_row) = Some 1 /\
  game_value (swap_player (player_of black 1)) (swap_board board_top_row)
    <> Z.opp <$> game_value (player_of black 1) board_top_row.
Proof. split_and!; [reflexivity|reflexivity|discriminate]. Qed.

(** ** Nested loops over the grid *)

Lemma for_flat {X Y S R} (xs : list X) (f : X -> list Y)
    (body : X -> Y -> S -> flow S R) s :
  for_ xs (fun x => for_ (f x) (body x)) s =
  for_ (flat_map (fun x => map (pair x) (f x)) xs) (fun xy => body xy.1 xy.2) s.
Proof.
  revert s. induction xs as [|x xs IH]; intros s; simpl; [done|].
  rewrite for_app, for_fmap. simpl.
  destruct (for_ (f x) (body x) s); auto.
Qed.

Lemma for_positions {S R} (body : Z -> Z -> S -> flow S R) s :
  for_ (range 5) (fun row => for_ (range 5) (body row)) s =
  for_ positions (fun rc => body rc.1 rc.2) s.
Proof. apply (for_flat (range 5) (fun _ => range 5)). Qed.

Lemma elem_of_positions rc : rc ∈ positions <-> in_grid rc.
Proof.
  unfold positions, in_grid. rewrite list_elem_of_In, in_flat_map. split.
  - intros (row & Hrow%list_elem_of_In%elem_of_range & Hrc%list_elem_of_In).
    apply list_elem_of_fmap in Hrc as (col & -> & Hcol%elem_of_range). done.
  - intros [Hr Hc]. exists rc.1. split.
    + by apply list_elem_of_In, elem_of_range.
    + apply list_elem_of_In, list_elem_of_fmap. exists rc.2.
      split; [by destruct rc|by apply elem_of_range].
Qed.

(** ** heuristic_game_value *)

(** What the body of the two loops does to [heuristic_val]. *)
Lemma heuristic_table_lookup row col :
  in_grid (row, col) ->
  (r ← py_index [[0.2; 0.2; 0.2; 0.2; 0.2]; [0.2; 0.1; 0.1; 0.1; 0.2];
                 [0.2; 0.1; 0.05; 0.1; 0.2]; [0.2; 0.1; 0.1; 0.1; 0.2];
                 [0.2; 0.2; 0.2; 0.2; 0.2]]%Q row; py_index r col)
  = Some (weight_in_code row col).
Proof.
  intros [Hr Hc]. simpl in *.
  assert (row = 0 \/ row = 1 \/ row = 2 \/ row = 3 \/ row = 4)
    as [->|[->|[->|[->| ->]]]] by lia;
  assert (col = 0 \/ col = 1 \/ col = 2 \/ col = 3 \/ col = 4)
    as [->|[->|[->|[->| ->]]]] by lia; reflexivity.
Qed.

Lemma foldl_Qplus {X} (upd : X -> Q -> Q) (g : X -> Q) (xs : list X) (s : Q) :
  (forall x s, x ∈ xs -> (upd x s == s + g x)%Q) ->
  (foldl (fun s x => upd x s) s xs == s + fold_right Qplus 0 (map g xs))%Q.
Proof.
  revert s. induction xs as [|x xs IH]; intros s Hupd; simpl; [lra|].
  rewrite IH by (intros; apply Hupd; by right).
  rewrite (Hupd x s) by left. lra.
Qed.

(** While the heuristic is active it is the weighted sum of the table that
    the code builds. *)
Lemma heuristic_game_value_active p state :
  wf_board state -> drop_phase_check p < 3 ->
  exists v, heuristic_game_value p state = Some v /\
            (v == weighted_sum weight_in_code p state)%Q.
Proof.
  intros Hwf Hd. unfold heuristic_game_value.
  rewrite (proj2 (Z.ltb_lt _ _) Hd), for_positions.
  erewrite (for_fold positions _ (fun rc hv =>
    match cell_at state rc.1 rc.2 with
    | Some x =>
        if Ascii.eqb x (my_piece p) then hv + weight_in_code rc.1 rc.2
        else if Ascii.eqb x (opp p) then hv - weight_in_code rc.1 rc.2
        else hv
    | None => hv
    end)%Q).
  - cbn [finish]. eexists. split; [reflexivity|].
    etransitivity; [apply (foldl_Qplus _ (fun rc =>
      cell_score p (weight_in_code rc.1 rc.2) (cell_at state rc.1 rc.2)))|].
    + intros rc hv _. unfold cell_score.
      destruct (cell_at state rc.1 rc.2) as [x|]; [|lra].
      destruct (Ascii.eqb x (my_piece p)); [lra|].
      destruct (Ascii.eqb x (opp p)); lra.
    + unfold weighted_sum. lra.
  - intros [row col] Hrc%elem_of_positions hv. simpl.
    destruct (wf_board_cell_at state row col Hwf) as [x Hx]; [apply Hrc..|].
    rewrite Hx, heuristic_table_lookup by done. simpl.
    destruct (Ascii.eqb x (my_piece p)); [done|].
    by destruct (Ascii.eqb x (opp p)).
Qed.

Lemma heuristic_game_value_inactive p state :
  3 <= drop_phase_check p -> heuristic_game_value p state = Some 0%Q.
Proof.
  intros Hd. unfold heuristic_game_value.
  by rewrite (proj2 (Z.ltb_ge _ _) Hd).
Qed.




(** C2 fails on the code.  With one 'b' of the player in the centre and
    the heuristic active, heuristic_game_value returns 0.05, the weight the
    specification gives to a border cell; the concentric weighting of the
    specification gives 0.2. *)
Theorem heuristic_game_value_centre :
  drop_phase_check (player_of black 1) < 3 /\
  heuristic_game_value (player_of black 1) board_centre = Some 0.05%Q /\
  (weighted_sum weight_in_spec (player_of black 1) board_centre == 0.2)%Q /\
  ~ (0.05 == 0.2)%Q /\
  heuristic_game_value (player_of black 1) board_corner = Some 0.2%Q /\
  (weighted_sum weight_in_spec (player_of black 1) board_corner == 0.05)%Q.
Proof.
  split_and!; try reflexivity; discriminate.
Qed.

(** ** The size of the heuristic score *)

Lemma weight_in_code_bounds row col :
  (0 <= weight_in_code row col <= 0.2)%Q.
Proof. unfold weight_in_code. repeat case_match; lra. Qed.

Lemma inject_nat_succ (n : nat) :
  (inject_Z (Z.of_nat (S n)) == inject_Z (Z.of_nat n) + 1)%Q.
Proof. rewrite Nat2Z.inj_succ. unfold Z.succ. by rewrite inject_Z_plus. Qed.

(** A weighted sum over cells [cs] read at [l] lies between the counts of
    the two players' cells, each cell weighing 0.2 at most. *)
Lemma weighted_sum_counts (p : Teeko2Player) (weight : Z -> Z -> Q)
    (rd : Z * Z -> option cell) (l : list (Z * Z)) (cs : list cell) :
  Forall2 (fun rc c => rd rc = Some c) l cs ->
  (forall rc, (0 <= weight rc.1 rc.2 <= 0.2)%Q) ->
  let total := fold_right Qplus 0%Q
                 (map (fun rc => cell_score p (weight rc.1 rc.2) (rd rc)) l) in
  (- (0.2 * inject_Z (Z.of_nat (count_occ Ascii.ascii_dec cs (opp p)))) <= total)%Q /\
  (total <= 0.2 * inject_Z (Z.of_nat (count_occ Ascii.ascii_dec cs (my_piece p))))%Q.
Proof.
  intros Hrd Hw. induction Hrd as [|rc c l cs Hc _ IH]; simpl; [by split|].
  destruct IH as [IHlo IHhi]. pose proof (Hw rc) as [Hw0 Hw1].
  set (rest := fold_right Qplus 0%Q _) in *.
  rewrite Hc. unfold cell_score.
  destruct (Ascii.ascii_dec c (opp p)) as [Ho|Ho],
           (Ascii.ascii_dec c (my_piece p)) as [Hm|Hm];
    rewrite ?inject_nat_succ;
    destruct (Ascii.eqb_spec c (my_piece p)); try done;
    destruct (Ascii.eqb_spec c (opp p)); try done; lra.
Qed.

(** The loops read the cells of a 5x5 board row after row. *)
Lemma positions_concat state :
  wf_board state ->
  Forall2 (fun rc c => cell_at state rc.1 rc.2 = Some c) positions (concat state).
Proof.
  intros [Hlen Hrows].
  do 6 (destruct state as [|? state]; try done).
  repeat match goal with
         | H : Forall _ (_ :: _) |- _ => apply Forall_cons in H as [? H]
         end.
  repeat match goal with
         | H : length ?r = 5%nat |- _ =>
             do 6 (destruct r as [|? r]; try done); clear H
         end.
  repeat constructor.
Qed.

Lemma count_occ_concat state x :
  count_occ Ascii.ascii_dec (concat state) x = count_cells x state.
Proof.
  unfold count_cells. induction state as [|row state IH]; simpl; [done|].
  by rewrite count_occ_app, IH.
Qed.

Lemma weighted_sum_bounds p state :
  wf_board state ->
  (- (0.2 * inject_Z (Z.of_nat (count_cells (opp p) state)))
     <= weighted_sum weight_in_code p state)%Q /\
  (weighted_sum weight_in_code p state
     <= 0.2 * inject_Z (Z.of_nat (count_cells (my_piece p) state)))%Q.
Proof.
  intros Hwf. rewrite <-!count_occ_concat.
  apply (weighted_sum_counts p weight_in_code
           (fun rc => cell_at state rc.1 rc.2) positions (concat state)).
  - by apply positions_concat.
  - intros rc. apply weight_in_code_bounds.
Qed.

Lemma inject_nat_le_4 (n : nat) : (n <= 4)%nat -> (inject_Z (Z.of_nat n) <= 4)%Q.
Proof.
  intros Hn. change 4%Q with (inject_Z 4). rewrite <-Zle_Qle. lia.
Qed.

(** C9. On a 5x5 board with at most four 'b' and at most four 'r', for a
    player who owns one of them against the other, heuristic_game_value
    returns a score of absolute value at most 0.8, hence strictly below 1. *)
Theorem heuristic_game_value_bound p state :
  wf_board state -> valid_player p ->
  (count_cells black state <= 4)%nat -> (count_cells red state <= 4)%nat ->
  exists v, heuristic_game_value p state = Some v /\
            (Qabs v <= 0.8)%Q /\ (Qabs v < 1)%Q.
Proof.
  intros Hwf Hp Hb Hr.
  assert (exists v, heuristic_game_value p state = Some v /\
                    (- 0.8 <= v <= 0.8)%Q) as (v & Hv & Hlo & Hhi).
  { destruct (Z.lt_ge_cases (drop_phase_check p) 3) as [Hd|Hd].
    - destruct (heuristic_game_value_active p state Hwf Hd) as (v & Hv & Heq).
      exists v. split; [done|].
      destruct (weighted_sum_bounds p state Hwf) as [Hlo Hhi].
      assert (count_cells (my_piece p) state <= 4 /\
              count_cells (opp p) state <= 4)%nat as [Hm%inject_nat_le_4 Ho%inject_nat_le_4].
      { destruct Hp as [[-> ->]|[-> ->]]; done. }
      lra.
    - exists 0%Q. split; [by apply heuristic_game_value_inactive|lra]. }
  exists v. split; [done|].
  assert (Qabs v <= 0.8)%Q by (apply Qabs_Qle_condition; lra).
  split; [done|lra].
Qed.

Lemma heuristic_game_value_bound_witness :
  exists v, heuristic_game_value (player_of black 1) board_b_to_win = Some v /\
            (Qabs v <= 0.8)%Q /\ (Qabs v < 1)%Q.
Proof.
  apply (heuristic_game_value_bound (player_of black 1) board_b_to_win).
  - split; [reflexivity|]. repeat constructor.
  - left. split; reflexivity.
  - vm_compute. lia.
  - vm_compute. lia.
Defined.

(** ** The search *)

(** C1 fails on the code.  'r', the opponent, has three in the top row
    and (0,3) free; the heuristic is off.  The minimizing node of the source
    evaluates the parent board once per successor and returns 0; the
    minimizing node of the specification evaluates the successors, finds the
    opponent's win and returns -1. *)
Theorem min_value_evaluates_parent :
  let p := player_of black 7 in
  game_value p board_r_threat = Some 0 /\
  (exists state, set_cell board_r_threat 0 3 red = Some state /\
                 game_value p state = Some (-1)) /\
  min_value p 1 board_r_threat (-1000)%Q 1000%Q = Some 0%Q /\
  min_value_spec p 1 board_r_threat (-1000)%Q 1000%Q = Some (-1)%Q /\
  min_value p 2 board_r_threat (-1000)%Q 1000%Q = Some 0%Q /\
  min_value_spec p 2 board_r_threat (-1000)%Q 1000%Q = Some (-1)%Q.
Proof.
  split_and!; try (vm_compute; reflexivity).
  eexists. split; vm_compute; reflexivity.
Qed.

(** C4 fails on the code.  'b' moves with three in the bottom row and
    (4,3) free: placing there wins.  Every other placement scores 1 as well,
    because the minimizing node never lets the opponent answer, and
    make_move keeps the first of the equal scores: it returns (0,0), which
    does not win. *)
Theorem make_move_misses_win :
  let p := player_of black 5 in
  drop_phase_check (count_turn p) < 9 /\
  (exists state, set_cell board_b_to_win 4 3 black = Some state /\
                 game_value p state = Some 1) /\
  (exists state, set_cell board_b_to_win 0 0 black = Some state /\
                 game_value p state = Some 0 /\
                 min_value (count_turn p) 2 state (-1000)%Q 1000%Q = Some 1%Q /\
                 min_value_spec (count_turn p) 2 state (-1000)%Q 1000%Q = Some 0%Q) /\
  fst <$> make_move p board_b_to_win = Some [(0, 0)].
Proof.
  split_and!; try (vm_compute; reflexivity).
  - eexists. split; vm_compute; reflexivity.
  - eexists. split_and!; vm_compute; reflexivity.
Qed.

(** ** Writing a cell of a board value *)

Lemma set_cell_Some_inv (state state' : board) row col x :
  0 <= row -> 0 <= col -> set_cell state row col x = Some state' ->
  exists r, state !! Z.to_nat row = Some r /\
            (Z.to_nat col < length r)%nat /\
            state' = <[Z.to_nat row := <[Z.to_nat col := x]> r]> state.
Proof.
  intros Hrow Hcol Hs. unfold set_cell in Hs.
  destruct (py_index state row) as [r|] eqn:Er; simpl in Hs; [|done].
  destruct (py_setitem r col x) as [r'|] eqn:Es; simpl in Hs; [|done].
  rewrite py_index_nonneg in Er by done.
  apply py_setitem_Some_nonneg in Es as [Hlt ->]; [|done].
  apply py_setitem_Some_nonneg in Hs as [_ ->]; [|done].
  exists r. split_and!; [done|lia|done].
Qed.

Lemma set_cell_is_Some (state : board) row col x :
  wf_board state -> in_grid (row, col) -> is_Some (set_cell state row col x).
Proof.
  intros Hwf [Hr Hc]. simpl in *. unfold set_cell.
  destruct (py_index_is_Some state row) as [r Hrow]; [destruct Hwf; lia|].
  rewrite Hrow. simpl.
  assert (length r = 5%nat) as Hlen.
  { destruct Hwf as [_ Hrows].
    apply (proj1 (Forall_forall _ _) Hrows), (py_index_elem_of _ _ _ Hrow). }
  rewrite py_setitem_nonneg by lia. simpl.
  rewrite py_setitem_nonneg by (destruct Hwf; lia). eauto.
Qed.

Lemma set_cell_wf (state state' : board) row col x :
  0 <= row -> 0 <= col ->
  wf_board state -> set_cell state row col x = Some state' -> wf_board state'.
Proof.
  intros Hrow Hcol [Hlen Hrows] (r & Hr & Hc & ->)%set_cell_Some_inv; [|done..].
  split; [by rewrite length_insert|].
  apply Forall_insert; [done|]. rewrite length_insert.
  apply (proj1 (Forall_forall _ _) Hrows). by eapply list_elem_of_lookup_2.
Qed.

(** Reading after writing, at coordinates that do not wrap. *)
Lemma cell_at_set_cell (state state' : board) row col x row' col' :
  0 <= row -> 0 <= col -> 0 <= row' -> 0 <= col' ->
  set_cell state row col x = Some state' ->
  cell_at state' row' col' =
    if decide ((row', col') = (row, col)) then Some x
    else cell_at state row' col'.
Proof.
  intros Hrow Hcol Hrow' Hcol' (r & Hr & Hc & ->)%set_cell_Some_inv; [|done..].
  unfold cell_at. rewrite !py_index_nonneg by done.
  destruct (decide (Z.to_nat row' = Z.to_nat row)) as [Erow|Erow].
  - rewrite Erow, list_lookup_insert_eq by by eapply lookup_lt_Some.
    simpl. rewrite Hr. simpl. rewrite !py_index_nonneg by done.
    destruct (decide (Z.to_nat col' = Z.to_nat col)) as [Ecol|Ecol].
    + rewrite Ecol, list_lookup_insert_eq by done.
      rewrite decide_True; [done|]. f_equal; lia.
    + rewrite list_lookup_insert_ne by done.
      rewrite decide_False; [done|]. intros [= ? ?]. lia.
  - rewrite list_lookup_insert_ne by done.
    rewrite decide_False; [done|]. intros [= ? ?]. lia.
Qed.

Lemma cell_at_set_cell_eq (state state' : board) row col x :
  0 <= row -> 0 <= col ->
  set_cell state row col x = Some state' ->
  cell_at state' row col = Some x.
Proof.
  intros. rewrite (cell_at_set_cell state state' row col x) by done.
  by rewrite decide_True.
Qed.

Lemma cell_at_set_cell_ne (state state' : board) row col x row' col' :
  0 <= row -> 0 <= col -> 0 <= row' -> 0 <= col' ->
  (row', col') <> (row, col) ->
  set_cell state row col x = Some state' ->
  cell_at state' row' col' = cell_at state row' col'.
Proof.
  intros. rewrite (cell_at_set_cell state state' row col x) by done.
  by rewrite decide_False.
Qed.

(** Counting after writing. *)
Lemma count_occ_insert (l : list cell) (i : nat) (old x y : cell) :
  l !! i = Some old ->
  (count_occ Ascii.ascii_dec (<[i := x]> l) y
     + (if Ascii.ascii_dec old y then 1 else 0)
   = count_occ Ascii.ascii_dec l y
     + (if Ascii.ascii_dec x y then 1 else 0))%nat.
Proof.
  revert i. induction l as [|a l IH]; intros [|i] Hi; simplify_eq/=.
  - repeat case_match; lia.
  - specialize (IH i Hi). repeat case_match; lia.
Qed.

Lemma count_cells_set_cell (state state' : board) row col old x y :
  0 <= row -> 0 <= col ->
  cell_at state row col = Some old ->
  set_cell state row col x = Some state' ->
  (count_cells y state' + (if Ascii.ascii_dec old y then 1 else 0)
   = count_cells y state + (if Ascii.ascii_dec x y then 1 else 0))%nat.
Proof.
  intros Hrow Hcol Hold (r & Hr & Hc & ->)%set_cell_Some_inv; [|done..].
  unfold cell_at in Hold. rewrite py_index_nonneg, Hr in Hold by done.
  simpl in Hold. rewrite py_index_nonneg in Hold by done.
  pose proof (count_occ_insert r (Z.to_nat col) old x y Hold) as Hcount.
  unfold count_cells. clear Hold Hc.
  revert Hr. generalize (Z.to_nat row). intros i. revert i.
  induction state as [|a state IH]; intros [|i] Hi; simplify_eq/=.
  - lia.
  - specialize (IH i Hi). lia.
Qed.

(** ** succ on board values *)

Lemma foldl_app_flat_map {X Y} (f : X -> list Y) (xs : list X) (acc : list Y) :
  foldl (fun acc x => acc ++ f x) acc xs = acc ++ flat_map f xs.
Proof.
  revert acc. induction xs as [|x xs IH]; intros acc; simpl.
  - by rewrite app_nil_r.
  - by rewrite IH, app_assoc.
Qed.

(** A loop that only appends to a list. *)
Lemma for_append {X Y R} (xs : list X) (body : X -> list Y -> flow (list Y) R)
    (f : X -> list Y) (acc : list Y) :
  (forall x, x ∈ xs -> forall acc, body x acc = Continue (acc ++ f x)) ->
  for_ xs body acc = Continue (acc ++ flat_map f xs).
Proof.
  intros Hb. rewrite (for_fold xs body (fun x acc => acc ++ f x)) by done.
  by rewrite foldl_app_flat_map.
Qed.

Section succ_on_boards.
Variables (p : Teeko2Player) (state : board) (turn_piece : cell).
Hypothesis Hwf : wf_board state.

Lemma succ_drop_phase_eq :
  drop_phase_check p < 9 ->
  succ p state turn_piece = Some (flat_map (placement state turn_piece) positions).
Proof.
  intros Hd. unfold succ. rewrite (proj2 (Z.ltb_lt _ _) Hd), for_positions.
  rewrite (for_append positions _ (placement state turn_piece)); [done|].
  intros [row col] Hrc%elem_of_positions acc. unfold placement, deepcopy. simpl.
  destruct (wf_board_cell_at state row col Hwf) as [x ->]; [apply Hrc..|].
  simpl. destruct (Ascii.eqb x empty); [|by rewrite app_nil_r].
  by destruct (set_cell_is_Some state row col turn_piece Hwf Hrc) as [s' ->].
Qed.

Lemma succ_body_slide row col i j acc :
  in_grid (row, col) ->
  (if negb (i =? 0) || negb (j =? 0) then
     if in_range (row + i) 5 then
       if in_range (col + j) 5 then
         let? y := cell_at state (row + i) (col + j) in
         if Ascii.eqb y empty then
           let new_state := deepcopy state in
           let? new_state := set_cell new_state (row + i) (col + j) turn_piece in
           let? new_state := set_cell new_state row col empty in
           Continue (acc ++ [([(row + i, col + j); (row, col)], new_state)])
         else Continue acc
       else Continue acc
     else Continue acc
   else Continue acc)
  = (Continue (acc ++ slide state turn_piece (row, col) (i, j))
       : flow (list (move * board)) (list (move * board))).
Proof.
  intros Hrc. unfold slide, deepcopy. simpl.
  destruct (negb (i =? 0) || negb (j =? 0)); simpl; [|by rewrite app_nil_r].
  destruct (in_range (row + i) 5) eqn:Hi; simpl; [|by rewrite app_nil_r].
  destruct (in_range (col + j) 5) eqn:Hj; simpl; [|by rewrite app_nil_r].
  assert (in_grid (row + i, col + j)) as Hdst.
  { unfold in_range in *. split; simpl; lia. }
  destruct (wf_board_cell_at state (row + i) (col + j) Hwf) as [y ->];
    [apply Hdst..|].
  simpl. destruct (Ascii.eqb y empty); [|by rewrite app_nil_r].
  destruct (set_cell_is_Some state (row + i) (col + j) turn_piece Hwf Hdst)
    as [s1 Hs1].
  rewrite Hs1. simpl.
  assert (wf_board s1) as Hwf1.
  { eapply set_cell_wf; [..|done|done]; apply Hdst. }
  by destruct (set_cell_is_Some s1 row col empty Hwf1 Hrc) as [s2 ->].
Qed.

Lemma succ_move_phase_eq :
  9 <= drop_phase_check p ->
  succ p state turn_piece = Some (flat_map (relocation state turn_piece) positions).
Proof.
  intros Hd. unfold succ. rewrite (proj2 (Z.ltb_ge _ _) Hd), for_positions.
  rewrite (for_append positions _ (relocation state turn_piece)); [done|].
  intros [row col] Hrc%elem_of_positions acc. unfold relocation.
  cbn [fst snd].
  destruct (wf_board_cell_at state row col Hwf) as [x ->]; [apply Hrc..|].
  cbn [try]. destruct (Ascii.eqb x turn_piece); [|by rewrite app_nil_r].
  rewrite (for_flat (py_range (-1) 2) (fun _ => py_range (-1) 2)).
  apply for_append. intros [i j] _ acc'. cbn [fst snd].
  by apply succ_body_slide.
Qed.
End succ_on_boards.

(** ** Boards in the store *)

Lemma py_index_Forall2 {A B} (P : A -> B -> Prop) (l : list A) (k : list B) i :
  Forall2 P l k -> option_Forall2 P (py_index l i) (py_index k i).
Proof.
  intros HP. unfold py_index. rewrite <-(Forall2_length _ _ _ HP).
  repeat case_match; try constructor; by apply Forall2_lookup.
Qed.

Lemma py_setitem_Forall2 {A B} (P : A -> B -> Prop) (l : list A) (k : list B)
    i x y :
  Forall2 P l k -> P x y ->
  option_Forall2 (Forall2 P) (py_setitem l i x) (py_setitem k i y).
Proof.
  intros HP Hxy. unfold py_setitem. rewrite <-(Forall2_length _ _ _ HP).
  repeat case_match; constructor; by apply Forall2_insert.
Qed.

Section store.
Implicit Types (h : gmap Store.loc Store.obj) (l r : Store.loc) (state : board).

Lemma new_loc_fresh h : h !! Store.new_loc h = None.
Proof. unfold Store.new_loc. apply not_elem_of_dom. apply is_fresh. Qed.

Lemma cells_of_Some h r cells :
  Store.cells_of h r = Some cells <-> h !! r = Some (Store.Row cells).
Proof. unfold Store.cells_of. repeat case_match; naive_solver. Qed.

Lemma rows_of_Some h l rows :
  Store.rows_of h l = Some rows <-> h !! l = Some (Store.Grid rows).
Proof. unfold Store.rows_of. repeat case_match; naive_solver. Qed.

Lemma cells_of_mono h h' r cells :
  h ⊆ h' -> Store.cells_of h r = Some cells -> Store.cells_of h' r = Some cells.
Proof. rewrite !cells_of_Some. intros Hsub Hr. by eapply lookup_weaken. Qed.

Lemma rows_of_mono h h' l rows :
  h ⊆ h' -> Store.rows_of h l = Some rows -> Store.rows_of h' l = Some rows.
Proof. rewrite !rows_of_Some. intros Hsub Hl. by eapply lookup_weaken. Qed.

Lemma board_at_mono h h' l state :
  h ⊆ h' -> Store.board_at h l state -> Store.board_at h' l state.
Proof.
  intros Hsub (rows & Hrows & Hnd & Hcells). exists rows.
  split_and!; [by eapply rows_of_mono|done|].
  apply mapM_Some. apply mapM_Some in Hcells.
  eapply Forall2_impl; [done|]. intros. by eapply cells_of_mono.
Qed.

(** A board denotes one value. *)
Lemma board_at_inj h l state1 state2 :
  Store.board_at h l state1 -> Store.board_at h l state2 -> state1 = state2.
Proof.
  intros (rows1 & Hr1 & _ & Hc1) (rows2 & Hr2 & _ & Hc2). congruence.
Qed.

(** Reading a cell through the store reads the board value. *)
Lemma store_cell_at h l state row col :
  Store.board_at h l state -> Store.cell_at h l row col = cell_at state row col.
Proof.
  intros (rows & Hrows & _ & Hcells%mapM_Some).
  unfold Store.cell_at, cell_at. rewrite Hrows. simpl.
  destruct (py_index_Forall2 _ _ _ row Hcells) as [r cells Hr|]; simpl; [|done].
  by rewrite Hr.
Qed.
End store.

(** ** deepcopy and item assignment in the store *)

Section store_copies.
Implicit Types (h : gmap Store.loc Store.obj) (l r : Store.loc) (state : board).

Lemma copy_rows_spec rows : forall h memo state,
  Forall2 (fun r cells => Store.cells_of h r = Some cells) rows state ->
  (forall r, r ∈ rows -> memo !! r = None) ->
  NoDup rows ->
  exists h' out,
    Store.copy_rows h memo rows = Some (h', out) /\
    h ⊆ h' /\
    Forall2 (fun r cells => Store.cells_of h' r = Some cells) out state /\
    NoDup out /\
    (forall r, r ∈ out -> h !! r = None).
Proof.
  induction rows as [|r rows IH]; intros h memo state Hcells Hmemo Hnd.
  - apply Forall2_nil_inv_l in Hcells as ->. exists h, [].
    split_and!; try done; try constructor. by intros ? ?%elem_of_nil.
  - apply Forall2_cons_inv_l in Hcells as (cells & state' & Hr & Hcells & ->).
    apply NoDup_cons in Hnd as [Hnotin Hnd].
    simpl. rewrite Hmemo by left. rewrite Hr. simpl.
    pose proof (new_loc_fresh h) as Hfresh.
    set (r' := Store.new_loc h) in *.
    assert (h ⊆ <[r' := Store.Row cells]> h) as Hsub by by apply insert_subseteq.
    destruct (IH (<[r' := Store.Row cells]> h) (<[r := r']> memo) state')
      as (h' & out & -> & Hsub' & Hout & Hndout & Hnew); [| |done|].
    + eapply Forall2_impl; [done|]. intros. by eapply cells_of_mono.
    + intros r0 Hr0. rewrite lookup_insert_ne; [apply Hmemo; by right|].
      by intros ->.
    + simpl. exists h', (r' :: out).
      assert (r' ∉ out) as Hr'.
      { intros Hin%Hnew. by rewrite lookup_insert_eq in Hin. }
      split_and!; [done|by etrans| |by constructor|].
      * constructor; [|done]. apply cells_of_Some.
        eapply lookup_weaken; [|done]. by rewrite lookup_insert_eq.
      * intros r0 [->|Hin%Hnew]%elem_of_cons; [done|].
        eapply lookup_weaken_None; done.
Qed.
End store_copies.

Section store_writes.
Implicit Types (h : gmap Store.loc Store.obj) (l r : Store.loc) (state : board).

(** deepcopy allocates a board of the same value and touches nothing. *)
Lemma deepcopy_spec h l state :
  Store.board_at h l state ->
  exists h' l',
    Store.deepcopy h l = Some (h', l') /\
    h ⊆ h' /\ Store.board_at h' l' state /\ Store.apart h h' l'.
Proof.
  intros (rows & Hrows & Hnd & Hcells%mapM_Some).
  destruct (copy_rows_spec rows h ∅ state Hcells) as
    (h1 & out & Hcopy & Hsub & Hout & Hndout & Hnew); [done|done|].
  unfold Store.deepcopy. rewrite Hrows. simpl. rewrite Hcopy. simpl.
  pose proof (new_loc_fresh h1) as Hfresh.
  set (l' := Store.new_loc h1) in *.
  assert (h1 ⊆ <[l' := Store.Grid out]> h1) as Hsub1 by by apply insert_subseteq.
  assert (Store.rows_of (<[l' := Store.Grid out]> h1) l' = Some out) as Hrows'.
  { apply rows_of_Some. by rewrite lookup_insert_eq. }
  eexists _, _. split_and!; [done|by etrans| |].
  - exists out. split_and!; [done..|].
    apply mapM_Some. eapply Forall2_impl; [done|].
    intros. by eapply cells_of_mono.
  - split.
    + by eapply lookup_weaken_None.
    + intros rows' r Hr Hin. rewrite Hrows' in Hr. simplify_eq. by apply Hnew.
Qed.

(** An assignment through a board allocated after [h0] updates the value
    that the board denotes and leaves the objects of [h0] alone. *)
Lemma store_set_cell_spec h0 h l state state' row col x :
  0 <= row -> 0 <= col ->
  Store.board_at h l state ->
  set_cell state row col x = Some state' ->
  h0 ⊆ h -> Store.apart h0 h l ->
  exists h',
    Store.set_cell h l row col x = Some h' /\
    Store.board_at h' l state' /\ h0 ⊆ h' /\ Store.apart h0 h' l.
Proof.
  intros Hrow Hcol (rows & Hrows & Hnd & Hcells%mapM_Some) Hset Hsub [Hl Hfresh].
  apply set_cell_Some_inv in Hset as (cells & Hcells_r & Hlt & ->); [|done..].
  destruct (Forall2_lookup_r _ _ _ _ _ Hcells Hcells_r) as (r & Hr & Hrc).
  unfold Store.set_cell. rewrite Hrows. simpl.
  rewrite py_index_nonneg, Hr by done. simpl. rewrite Hrc. simpl.
  rewrite py_setitem_nonneg by lia. simpl.
  assert (l <> r) as Hlr.
  { intros ->. apply rows_of_Some in Hrows. apply cells_of_Some in Hrc.
    congruence. }
  assert (Store.rows_of (<[r := Store.Row (<[Z.to_nat col := x]> cells)]> h) l
          = Some rows) as Hrows'.
  { apply rows_of_Some. rewrite lookup_insert_ne by done.
    by apply rows_of_Some. }
  eexists. split_and!; [done| | |].
  - exists rows. split_and!; [done..|].
    apply mapM_Some, Forall2_same_length_lookup.
    split; [rewrite length_insert; by eapply Forall2_length|].
    intros i r0 cells0 Hr0 Hcells0.
    destruct (decide (i = Z.to_nat row)) as [->|Hi].
    + rewrite list_lookup_insert_eq in Hcells0 by by eapply lookup_lt_Some.
      simplify_eq. apply cells_of_Some. by rewrite lookup_insert_eq.
    + rewrite list_lookup_insert_ne in Hcells0 by done.
      assert (r0 <> r) as Hne.
      { intros ->. apply Hi. by eapply NoDup_lookup. }
      apply cells_of_Some. rewrite lookup_insert_ne by done.
      apply cells_of_Some.
      exact (Forall2_lookup_lr _ _ _ _ _ _ Hcells Hr0 Hcells0).
  - apply insert_subseteq_r; [|done].
    eapply Hfresh; [done|]. by eapply list_elem_of_lookup_2.
  - split; [done|]. intros rows' r0 Hr0 Hin. rewrite Hrows' in Hr0.
    simplify_eq. by eapply Hfresh.
Qed.
End store_writes.

(** ** succ in the store against succ on board values *)

Lemma for_simulates {X S1 S2 R1 R2} (Rel : S1 -> S2 -> Prop) (xs : list X)
    (body1 : X -> S1 -> flow S1 R1) (body2 : X -> S2 -> flow S2 R2) :
  (forall x s1 s2, x ∈ xs -> Rel s1 s2 ->
     Store.simulates Rel (body1 x s1) (body2 x s2)) ->
  forall s1 s2, Rel s1 s2 ->
    Store.simulates Rel (for_ xs body1 s1) (for_ xs body2 s2).
Proof.
  intros Hbody. induction xs as [|x xs IH]; intros s1 s2 Hrel; simpl.
  - by exists s2.
  - pose proof (Hbody x s1 s2 ltac:(left) Hrel) as Hx.
    destruct (body1 x s1) as [s1'| |]; simpl in Hx; [|done..].
    destruct Hx as (s2' & -> & Hrel').
    apply IH; [|done]. intros y t1 t2 Hy. apply Hbody. by right.
Qed.

Section store_succ.
Implicit Types (h : gmap Store.loc Store.obj) (l r : Store.loc) (state : board).

Lemma apart_mono h0 h h' l state :
  h ⊆ h' -> Store.board_at h l state -> Store.apart h0 h l ->
  Store.apart h0 h' l.
Proof.
  intros Hsub (rows & Hrows & _) [Hl Hfresh]. split; [done|].
  intros rows' r Hrows' Hin.
  rewrite (rows_of_mono _ _ _ _ Hsub Hrows) in Hrows'. simplify_eq.
  by eapply Hfresh.
Qed.

Lemma apart_weaken h0 h1 h l :
  h0 ⊆ h1 -> Store.apart h1 h l -> Store.apart h0 h l.
Proof.
  intros Hsub [Hl Hfresh].
  split; [by eapply lookup_weaken_None|].
  intros rows r Hrows Hin. eapply lookup_weaken_None; [|done].
  by eapply Hfresh.
Qed.

Lemma denotes_mono h0 h h' es vs :
  h ⊆ h' -> Store.denotes h0 h es vs -> Store.denotes h0 h' es vs.
Proof.
  intros Hsub Hd. eapply Forall2_impl; [exact Hd|].
  intros e v (Hm & Hb & Ha).
  split_and!; [done|by eapply board_at_mono|by eapply apart_mono].
Qed.

(** Assignments one after the other through a board allocated after
    [h0]. *)
Lemma store_writes_spec h0 l (writes : list (Z * Z * cell)) :
  Forall (fun w => 0 <= w.1.1 /\ 0 <= w.1.2) writes ->
  forall h state state',
  Store.board_at h l state -> h0 ⊆ h -> Store.apart h0 h l ->
  foldl (fun s w => s ≫= fun s => set_cell s w.1.1 w.1.2 w.2)
        (Some state) writes = Some state' ->
  exists h',
    foldl (fun s w => s ≫= fun s => Store.set_cell s l w.1.1 w.1.2 w.2)
          (Some h) writes = Some h' /\
    Store.board_at h' l state' /\ h0 ⊆ h' /\ Store.apart h0 h' l.
Proof.
  induction 1 as [|[[row col] x] writes [Hrow Hcol] _ IH];
    intros h state state' Hb Hsub Ha Hwrites; simpl in *.
  - simplify_eq. exists h. split_and!; done.
  - destruct (set_cell state row col x) as [state2|] eqn:Hset.
    + destruct (store_set_cell_spec h0 h l state state2 row col x)
        as (h2 & -> & Hb2 & Hsub2 & Ha2); try done.
      by eapply IH.
    + exfalso. clear -Hwrites. induction writes; simpl in *; [done|auto].
Qed.

Variables (p : Teeko2Player) (h0 : gmap Store.loc Store.obj) (l : Store.loc)
          (state : board) (turn_piece : cell).
Hypothesis Hboard : Store.board_at h0 l state.

Local Abbreviation Rel := (Store.related h0).

(** A new successor: copy, then write. *)
Lemma store_new_successor h es vs m state' (writes : list (Z * Z * cell)) :
  Rel vs (h, es) ->
  Forall (fun w => 0 <= w.1.1 /\ 0 <= w.1.2) writes ->
  foldl (fun s w => s ≫= fun s => set_cell s w.1.1 w.1.2 w.2)
        (Some state) writes = Some state' ->
  exists h1 l1 h',
    Store.deepcopy h l = Some (h1, l1) /\
    foldl (fun s w => s ≫= fun s => Store.set_cell s l1 w.1.1 w.1.2 w.2)
          (Some h1) writes = Some h' /\
    Rel (vs ++ [(m, state')]) (h', es ++ [(m, l1)]).
Proof.
  intros [Hsub Hden] Hnonneg Hwrites. simpl in *.
  assert (Store.board_at h l state) as Hb by by eapply board_at_mono.
  destruct (deepcopy_spec h l state Hb) as (h1 & l1 & Hcopy & Hsub1 & Hb1 & Ha1).
  exists h1, l1.
  destruct (store_writes_spec h l1 writes Hnonneg h1 state state')
    as (h' & Hfold & Hb' & Hsub' & Ha'); [done..|].
  exists h'. split_and!; [done|done|].
  split; simpl; [by etrans|].
  apply Forall2_app.
  - by eapply denotes_mono.
  - constructor; [|constructor]. simpl.
    split_and!; [done|done|by eapply apart_weaken].
Qed.
End store_succ.

Section store_succ_refines.
Variables (p : Teeko2Player) (h0 : gmap Store.loc Store.obj) (l : Store.loc)
          (state : board) (turn_piece : cell).
Hypothesis Hboard : Store.board_at h0 l state.

Local Abbreviation Rel := (Store.related h0).

Lemma related_board_at vs hs : Rel vs hs -> Store.board_at hs.1 l state.
Proof. intros [Hsub _]. by eapply board_at_mono. Qed.

Lemma store_succ_refines vs :
  succ p state turn_piece = Some vs ->
  exists h' es, Store.succ p h0 l turn_piece = Some (h', es) /\ Rel vs (h', es).
Proof.
  assert (Rel [] (h0, [])) as Hinit by (split; [done|constructor]).
  unfold succ, Store.succ. destruct (drop_phase_check p <? 9).
  - match goal with
    | |- finish (for_ _ ?b1 _) _ = _ -> exists _ _, finish (for_ _ ?b2 _) _ = _ /\ _ =>
        pose proof (for_simulates Rel (range 5) b1 b2) as Hsim
    end.
    specialize (Hsim) with (2 := Hinit).
    match type of Hsim with ?P -> _ => assert P as Hbody end.
    { intros row vs1 hs1 Hrow%elem_of_range Hrel1.
      apply for_simulates; [|done].
      intros col vs2 [h2 es2] Hcol%elem_of_range Hrel2.
      rewrite (store_cell_at h2 l state) by apply (related_board_at _ _ Hrel2).
      destruct (cell_at state row col) as [x|]; simpl; [|done].
      destruct (Ascii.eqb x empty); [|by eexists].
      unfold deepcopy.
      destruct (set_cell state row col turn_piece) as [state'|] eqn:Hset;
        simpl; [|done].
      destruct (store_new_successor h0 l state Hboard h2 es2 vs2
                  [(row, col)] state' [(row, col, turn_piece)] Hrel2)
        as (h3 & l3 & h4 & -> & Hw & Hrel4).
      { repeat constructor; simpl; lia. }
      { simpl. by rewrite Hset. }
      simpl in *. rewrite Hw. simpl. by eexists. }
    specialize (Hsim Hbody). clear Hbody.
    destruct (for_ (range 5) _ []) as [vs'| |]; simpl in *; [|done..].
    destruct Hsim as ([h' es] & -> & Hrel). intros [= <-]. by exists h', es.
  - match goal with
    | |- finish (for_ _ ?b1 _) _ = _ -> exists _ _, finish (for_ _ ?b2 _) _ = _ /\ _ =>
        pose proof (for_simulates Rel (range 5) b1 b2) as Hsim
    end.
    specialize (Hsim) with (2 := Hinit).
    match type of Hsim with ?P -> _ => assert P as Hbody end.
    { intros row vs1 hs1 Hrow%elem_of_range Hrel1.
      apply for_simulates; [|done].
      intros col vs2 [h2 es2] Hcol%elem_of_range Hrel2.
      rewrite (store_cell_at h2 l state) by apply (related_board_at _ _ Hrel2).
      destruct (cell_at state row col) as [x|]; cbn [try Store.simulates]; [|done].
      destruct (Ascii.eqb x turn_piece); [|by eexists].
      apply for_simulates; [|done].
      intros i vs3 hs3 _ Hrel3.
      apply for_simulates; [|done].
      intros j vs4 [h4 es4] _ Hrel4.
      destruct (negb (i =? 0) || negb (j =? 0)); [|by eexists].
      destruct (in_range (row + i) 5) eqn:Hi; [|by eexists].
      destruct (in_range (col + j) 5) eqn:Hj; [|by eexists].
      rewrite (store_cell_at h4 l state) by apply (related_board_at _ _ Hrel4).
      destruct (cell_at state (row + i) (col + j)) as [y|]; cbn [try Store.simulates]; [|done].
      destruct (Ascii.eqb y empty); [|by eexists].
      unfold deepcopy.
      destruct (set_cell state (row + i) (col + j) turn_piece)
        as [state1|] eqn:Hset1; simpl; [|done].
      destruct (set_cell state1 row col empty) as [state2|] eqn:Hset2;
        simpl; [|done].
      destruct (store_new_successor h0 l state Hboard h4 es4 vs4
                  [(row + i, col + j); (row, col)] state2
                  [(row + i, col + j, turn_piece); (row, col, empty)] Hrel4)
        as (h5 & l5 & h6 & -> & Hw & Hrel6).
      { unfold in_range in *. repeat constructor; simpl; lia. }
      { simpl. rewrite Hset1. simpl. by rewrite Hset2. }
      simpl in *.
      destruct (Store.set_cell h5 l5 (row + i) (col + j) turn_piece)
        as [h5'|]; simpl in *; [|done].
      rewrite Hw. simpl. by eexists. }
    specialize (Hsim Hbody). clear Hbody.
    destruct (for_ (range 5) _ []) as [vs'| |]; simpl in *; [|done..].
    destruct Hsim as ([h' es] & -> & Hrel). intros [= <-]. by exists h', es.
Qed.
End store_succ_refines.

(** ** The successors of the drop phase *)

Section placements.
Variables (state : board) (turn_piece : cell).
Hypothesis Hwf : wf_board state.

Lemma placement_inv rc v :
  in_grid rc -> v ∈ placement state turn_piece rc ->
  v.1 = [rc] /\ cell_at state rc.1 rc.2 = Some empty /\
  set_cell state rc.1 rc.2 turn_piece = Some v.2.
Proof.
  intros Hrc. unfold placement.
  destruct (cell_at state rc.1 rc.2) as [x|]; [|by intros ?%elem_of_nil].
  destruct (Ascii.eqb_spec x empty) as [->|]; [|by intros ?%elem_of_nil].
  destruct (set_cell state rc.1 rc.2 turn_piece) as [state'|];
    [|by intros ?%elem_of_nil].
  intros ->%list_elem_of_singleton. by destruct rc.
Qed.

Lemma placement_places rc v :
  in_grid rc -> v ∈ placement state turn_piece rc ->
  places state turn_piece v.1 v.2.
Proof.
  intros Hrc Hv. destruct (placement_inv rc v Hrc Hv) as (Hm & Hcell & Hset).
  destruct rc as [row col]. destruct Hrc as [Hrow Hcol]. simpl in *.
  exists row, col. split_and!; [done|done|done| | |].
  - eapply set_cell_wf; [..|done|done]; lia.
  - eapply cell_at_set_cell_eq; [..|done]; lia.
  - intros r c [Hr Hc] Hne. simpl in *.
    eapply cell_at_set_cell_ne; [..|done|done]; lia.
Qed.

Lemma length_placements l cs :
  Forall in_grid l ->
  Forall2 (fun rc c => cell_at state rc.1 rc.2 = Some c) l cs ->
  length (flat_map (placement state turn_piece) l)
  = count_occ Ascii.ascii_dec cs empty.
Proof.
  intros Hgrid Hcells. induction Hcells as [|rc c l cs Hc _ IH]; simpl; [done|].
  apply Forall_cons in Hgrid as [Hrc Hgrid].
  rewrite length_app, IH by done. unfold placement. rewrite Hc.
  destruct (set_cell_is_Some state rc.1 rc.2 turn_piece Hwf) as [state' ->];
    [by destruct rc|].
  destruct (Ascii.eqb_spec c empty), (Ascii.ascii_dec c empty); done.
Qed.

Lemma moves_placements l m :
  Forall in_grid l ->
  m ∈ map fst (flat_map (placement state turn_piece) l) ->
  exists rc, rc ∈ l /\ m = [rc].
Proof.
  intros Hgrid (v & -> & Hv)%list_elem_of_fmap.
  apply list_elem_of_In, in_flat_map in Hv as (rc & Hrc%list_elem_of_In & Hv%list_elem_of_In).
  exists rc. split; [done|].
  apply (placement_inv rc v); [|done].
  by apply (proj1 (Forall_forall _ _) Hgrid).
Qed.

Lemma NoDup_placements l :
  Forall in_grid l -> NoDup l ->
  NoDup (map fst (flat_map (placement state turn_piece) l)).
Proof.
  intros Hgrid Hnd. induction Hnd as [|rc l Hnotin Hnd IH]; simpl; [constructor|].
  apply Forall_cons in Hgrid as [Hrc Hgrid].
  rewrite map_app. apply NoDup_app. split_and!.
  - unfold placement. repeat case_match; simpl; repeat constructor;
      by intros ?%elem_of_nil.
  - intros m (v & -> & Hv)%list_elem_of_fmap Hin.
    apply (placement_inv rc v Hrc) in Hv as (Hm & _).
    apply moves_placements in Hin as (rc' & Hrc' & Hm'); [|done].
    rewrite Hm in Hm'. by simplify_eq.
  - by apply IH.
Qed.
End placements.

Lemma NoDup_positions : NoDup positions.
Proof. apply (bool_decide_unpack _). by vm_compute. Qed.

Lemma Forall_in_grid_positions : Forall in_grid positions.
Proof. apply Forall_forall. intros rc. apply elem_of_positions. Qed.

(** ** The successors after the drop phase *)

Lemma elem_of_offsets ij : ij ∈ offsets <-> (-1 <= ij.1 <= 1 /\ -1 <= ij.2 <= 1).
Proof.
  unfold offsets. rewrite list_elem_of_In, in_flat_map. split.
  - intros (i & Hi%list_elem_of_In%elem_of_py_range & Hij%list_elem_of_In).
    apply list_elem_of_fmap in Hij as (j & -> & Hj%elem_of_py_range).
    simpl. lia.
  - intros [Hi Hj]. exists ij.1. split.
    + apply list_elem_of_In, elem_of_py_range. lia.
    + apply list_elem_of_In, list_elem_of_fmap. exists ij.2.
      split; [by destruct ij|]. apply elem_of_py_range. lia.
Qed.

Section relocations.
Variables (state : board) (turn_piece : cell).
Hypothesis Hwf : wf_board state.

Lemma slide_inv rc ij v :
  v ∈ slide state turn_piece rc ij ->
  ij <> (0, 0) /\ in_grid (rc.1 + ij.1, rc.2 + ij.2) /\
  v.1 = [(rc.1 + ij.1, rc.2 + ij.2); rc] /\
  cell_at state (rc.1 + ij.1) (rc.2 + ij.2) = Some empty /\
  exists state1,
    set_cell state (rc.1 + ij.1) (rc.2 + ij.2) turn_piece = Some state1 /\
    set_cell state1 rc.1 rc.2 empty = Some v.2.
Proof.
  unfold slide.
  destruct (negb (ij.1 =? 0) || negb (ij.2 =? 0)) eqn:Hij; simpl;
    [|by intros ?%elem_of_nil].
  destruct (in_range (rc.1 + ij.1) 5) eqn:Hi; simpl; [|by intros ?%elem_of_nil].
  destruct (in_range (rc.2 + ij.2) 5) eqn:Hj; simpl; [|by intros ?%elem_of_nil].
  destruct (cell_at state (rc.1 + ij.1) (rc.2 + ij.2)) as [y|];
    [|by intros ?%elem_of_nil].
  destruct (Ascii.eqb_spec y empty) as [->|]; [|by intros ?%elem_of_nil].
  destruct (set_cell state (rc.1 + ij.1) (rc.2 + ij.2) turn_piece)
    as [state1|]; simpl; [|by intros ?%elem_of_nil].
  destruct (set_cell state1 rc.1 rc.2 empty) as [state2|] eqn:Hset2;
    [|by intros ?%elem_of_nil].
  intros ->%list_elem_of_singleton. simpl. split_and!.
  - intros ->. simpl in Hij. done.
  - unfold in_range in *. split; simpl; lia.
  - by destruct rc.
  - done.
  - by exists state1.
Qed.

Lemma relocation_inv rc v :
  v ∈ relocation state turn_piece rc ->
  cell_at state rc.1 rc.2 = Some turn_piece /\
  exists ij, ij ∈ offsets /\ v ∈ slide state turn_piece rc ij.
Proof.
  unfold relocation.
  destruct (cell_at state rc.1 rc.2) as [x|]; [|by intros ?%elem_of_nil].
  destruct (Ascii.eqb_spec x turn_piece) as [->|]; [|by intros ?%elem_of_nil].
  intros (ij & Hij%list_elem_of_In & Hv%list_elem_of_In)%list_elem_of_In%in_flat_map.
  eauto.
Qed.

Lemma relocation_relocates rc v :
  in_grid rc -> v ∈ relocation state turn_piece rc ->
  relocates state turn_piece v.1 v.2 /\ frames state turn_piece v.1 v.2.
Proof.
  intros Hrc (Hsrc & ij & Hij%elem_of_offsets & Hv)%relocation_inv.
  apply slide_inv in Hv as (Hne & Hdst & Hm & Hempty & state1 & Hset1 & Hset2).
  destruct rc as [row col], ij as [i j], Hrc as [Hrow Hcol],
    Hdst as [Hrow' Hcol'], Hij as [Hi Hj]. simpl in *.
  assert ((row + i, col + j) <> (row, col)) as Hdiff.
  { intros [= ? ?]. apply Hne. f_equal; lia. }
  assert (wf_board state1) as Hwf1.
  { eapply set_cell_wf; [..|exact Hwf|done]; lia. }
  assert (wf_board v.2) as Hwf2.
  { eapply set_cell_wf; [..|exact Hwf1|done]; lia. }
  assert (cell_at v.2 row col = Some empty) as Hsrc'.
  { eapply cell_at_set_cell_eq; [..|done]; lia. }
  assert (cell_at v.2 (row + i) (col + j) = Some turn_piece) as Hdst'.
  { rewrite (cell_at_set_cell_ne state1 v.2 row col empty) by (done || lia).
    eapply cell_at_set_cell_eq; [..|done]; lia. }
  assert (forall rc, in_grid rc -> rc <> (row, col) -> rc <> (row + i, col + j) ->
                     cell_at v.2 rc.1 rc.2 = cell_at state rc.1 rc.2) as Hframe.
  { intros [r c] [Hr Hc] Hn1 Hn2. simpl in *.
    rewrite (cell_at_set_cell_ne state1 v.2 row col empty) by (done || lia).
    by rewrite (cell_at_set_cell_ne state state1 (row + i) (col + j) turn_piece)
      by (done || lia). }
  split.
  - exists (row, col), (row + i, col + j). simpl.
    split_and!; try done. unfold chebyshev. simpl. lia.
  - exists (row, col), (row + i, col + j). simpl.
    split_and!; try done.
    + intros rc x Hgrid Hx Hnp Hne'. rewrite Hframe; [done|done|..].
      * intros ->. simpl in Hx. congruence.
      * intros ->. simpl in Hx. congruence.
    + intros y.
      pose proof (count_cells_set_cell state state1 (row + i) (col + j)
                    empty turn_piece y ltac:(lia) ltac:(lia) Hempty Hset1) as H1.
      assert (cell_at state1 row col = Some turn_piece) as Hold.
      { by rewrite (cell_at_set_cell_ne state state1 (row + i) (col + j) turn_piece)
          by (done || lia). }
      pose proof (count_cells_set_cell state1 v.2 row col
                    turn_piece empty y ltac:(lia) ltac:(lia) Hold Hset2) as H2.
      destruct (Ascii.ascii_dec empty y), (Ascii.ascii_dec turn_piece y); lia.
Qed.
End relocations.

(** ** succ: what the caller gets back *)

(** Properties of the successors on board values hold of the boards that
    the successors in the store refer to; the store only grows. *)
Lemma store_succ_entries (P : move -> board -> Prop) p h l state turn_piece vs :
  Store.board_at h l state ->
  succ p state turn_piece = Some vs ->
  Forall (fun v => P v.1 v.2) vs ->
  exists h' es,
    Store.succ p h l turn_piece = Some (h', es) /\
    h ⊆ h' /\ Store.board_at h' l state /\
    length es = length vs /\ map fst es = map fst vs /\
    Forall (fun e => exists state', Store.board_at h' e.2 state' /\ P e.1 state') es.
Proof.
  intros Hb Hsucc HP.
  destruct (store_succ_refines p h l state turn_piece Hb vs Hsucc)
    as (h' & es & Hstore & Hsub & Hden).
  simpl in *. exists h', es.
  split_and!; [done|done|by eapply board_at_mono|by eapply Forall2_length| |].
  - clear HP Hstore Hsucc. induction Hden as [|e v es vs (Hm & _) _ IH]; simpl; [done|].
    by f_equal.
  - clear Hstore Hsucc. induction Hden as [|e v es vs (Hm & Hbv & _) _ IH];
      [constructor|].
    apply Forall_cons in HP as [Hv HP].
    constructor; [|by apply IH]. exists v.2. rewrite Hm. done.
Qed.

(** C6. In the drop phase, on a 5x5 board held in the store, succ returns
    as many successors as the board has empty cells; their moves are single
    placements on distinct cells, each on an empty cell, each paired with a
    board that differs from the input in this cell only, which holds the
    piece; every object that the store held before the call is unchanged,
    the input board among them. *)
Theorem succ_drop_phase p h l state turn_piece :
  drop_phase_check p < 9 -> wf_board state -> Store.board_at h l state ->
  exists h' successors,
    Store.succ p h l turn_piece = Some (h', successors) /\
    length successors = count_cells empty state /\
    NoDup (map fst successors) /\
    Forall (fun e => exists state',
              Store.board_at h' e.2 state' /\
              places state turn_piece e.1 state') successors /\
    h ⊆ h' /\ Store.board_at h' l state.
Proof.
  intros Hd Hwf Hb.
  destruct (store_succ_entries (places state turn_piece) p h l state turn_piece
              (flat_map (placement state turn_piece) positions) Hb)
    as (h' & es & Hsucc & Hsub & Hb' & Hlen & Hmoves & Hes).
  { by apply succ_drop_phase_eq. }
  { apply Forall_forall. intros v Hv.
    apply list_elem_of_In, in_flat_map in Hv as (rc & Hrc & Hv).
    apply (placement_places state turn_piece Hwf rc);
      [by apply elem_of_positions, list_elem_of_In|by apply list_elem_of_In]. }
  exists h', es. split_and!; try done.
  - rewrite Hlen, <-count_occ_concat.
    apply length_placements;
      [done|apply Forall_in_grid_positions|by apply positions_concat].
  - rewrite Hmoves.
    apply NoDup_placements;
      [apply Forall_in_grid_positions|apply NoDup_positions].
Qed.

(** C7. After the drop phase, on a 5x5 board held in the store, every
    successor that succ returns has a move (destination, source) whose source
    holds the piece and whose destination is empty in the input, differs from
    the source, lies in the grid and within Chebyshev distance 1 of the
    source; in the paired board the source is empty and the destination
    holds the piece. *)
Theorem succ_move_phase p h l state turn_piece :
  9 <= drop_phase_check p -> wf_board state -> Store.board_at h l state ->
  exists h' successors,
    Store.succ p h l turn_piece = Some (h', successors) /\
    Forall (fun e => exists state',
              Store.board_at h' e.2 state' /\
              relocates state turn_piece e.1 state') successors.
Proof.
  intros Hd Hwf Hb.
  destruct (store_succ_entries (relocates state turn_piece) p h l state turn_piece
              (flat_map (relocation state turn_piece) positions) Hb)
    as (h' & es & Hsucc & _ & _ & _ & _ & Hes).
  { by apply succ_move_phase_eq. }
  { apply Forall_forall. intros v Hv.
    apply list_elem_of_In, in_flat_map in Hv as (rc & Hrc & Hv).
    apply (relocation_relocates state turn_piece Hwf rc);
      [by apply elem_of_positions, list_elem_of_In|by apply list_elem_of_In]. }
  by exists h', es.
Qed.

(** C10. After the drop phase, on a 5x5 board held in the store, every
    successor board that succ returns is a 5x5 board equal to the input
    outside the source and the destination of its move: the source is empty,
    the destination holds the piece, the cells of the other player are as
    they were, and every marker, the piece among them, occurs as often as in
    the input. *)
Theorem succ_move_phase_frame p h l state turn_piece :
  9 <= drop_phase_check p -> wf_board state -> Store.board_at h l state ->
  exists h' successors,
    Store.succ p h l turn_piece = Some (h', successors) /\
    Forall (fun e => exists state',
              Store.board_at h' e.2 state' /\
              frames state turn_piece e.1 state') successors.
Proof.
  intros Hd Hwf Hb.
  destruct (store_succ_entries (frames state turn_piece) p h l state turn_piece
              (flat_map (relocation state turn_piece) positions) Hb)
    as (h' & es & Hsucc & _ & _ & _ & _ & Hes).
  { by apply succ_move_phase_eq. }
  { apply Forall_forall. intros v Hv.
    apply list_elem_of_In, in_flat_map in Hv as (rc & Hrc & Hv).
    apply (relocation_relocates state turn_piece Hwf rc);
      [by apply elem_of_positions, list_elem_of_In|by apply list_elem_of_In]. }
  by exists h', es.
Qed.

Lemma wf_board_b_to_win : wf_board board_b_to_win.
Proof. split; [reflexivity|]. repeat constructor. Defined.

Lemma wf_board_midgame : wf_board board_midgame.
Proof. split; [reflexivity|]. repeat constructor. Defined.

Lemma board_at_store_b_to_win :
  Store.board_at store_b_to_win.1 store_b_to_win.2 board_b_to_win.
Proof.
  exists [1; 2; 3; 4; 5]%positive. split_and!.
  - vm_compute. reflexivity.
  - apply (bool_decide_unpack _). vm_compute. exact I.
  - vm_compute. reflexivity.
Defined.

Lemma board_at_store_midgame :
  Store.board_at store_midgame.1 store_midgame.2 board_midgame.
Proof.
  exists [1; 2; 3; 4; 5]%positive. split_and!.
  - vm_compute. reflexivity.
  - apply (bool_decide_unpack _). vm_compute. exact I.
  - vm_compute. reflexivity.
Defined.

Lemma succ_drop_phase_witness :
  exists h' successors,
    Store.succ (player_of black 7) store_b_to_win.1 store_b_to_win.2 black
      = Some (h', successors) /\
    length successors = count_cells empty board_b_to_win /\
    NoDup (map fst successors) /\
    Forall (fun e => exists state',
              Store.board_at h' e.2 state' /\
              places board_b_to_win black e.1 state') successors /\
    store_b_to_win.1 ⊆ h' /\ Store.board_at h' store_b_to_win.2 board_b_to_win.
Proof.
  apply (succ_drop_phase (player_of black 7) store_b_to_win.1 store_b_to_win.2
           board_b_to_win black).
  - simpl. lia.
  - exact wf_board_b_to_win.
  - exact board_at_store_b_to_win.
Defined.

Lemma succ_move_phase_witness :
  exists h' successors,
    Store.succ (player_of black 9) store_midgame.1 store_midgame.2 black
      = Some (h', successors) /\
    Forall (fun e => exists state',
              Store.board_at h' e.2 state' /\
              relocates board_midgame black e.1 state') successors.
Proof.
  apply (succ_move_phase (player_of black 9) store_midgame.1 store_midgame.2
           board_midgame black).
  - simpl. lia.
  - exact wf_board_midgame.
  - exact board_at_store_midgame.
Defined.

Lemma succ_move_phase_frame_witness :
  exists h' successors,
    Store.succ (player_of red 11) store_midgame.1 store_midgame.2 red
      = Some (h', successors) /\
    Forall (fun e => exists state',
              Store.board_at h' e.2 state' /\
              frames board_midgame red e.1 state') successors.
Proof.
  apply (succ_move_phase_frame (player_of red 11) store_midgame.1 store_midgame.2
           board_midgame red).
  - simpl. lia.
  - exact wf_board_midgame.
  - exact board_at_store_midgame.
Defined.

(** * Further properties *)

(** ** game_value finds exactly the winning patterns *)

Lemma win_if_line p a b c d v :
  win_if p (line4 a b c d) a = Return v ->
  exists x, x <> empty /\ v = winner p x /\
            a = Some x /\ b = Some x /\ c = Some x /\ d = Some x.
Proof.
  intros (Hcond & x & Ha & ->)%win_if_Return.
  apply line4_true in Hcond as (y & Hy & ? & ? & ? & ?). simplify_eq.
  eexists. by split_and!.
Qed.

Lemma win_if_box p a m b c d v :
  win_if p (box4 a m b c d) a = Return v ->
  exists x, x <> empty /\ v = winner p x /\ m = Some empty /\
            a = Some x /\ b = Some x /\ c = Some x /\ d = Some x.
Proof.
  intros (Hcond & x & Ha & ->)%win_if_Return.
  apply box4_true in Hcond as (y & Hy & ? & ? & ? & ? & ?). simplify_eq.
  eexists. by split_and!.
Qed.

Lemma holds_line state x (r c dr dc : Z) :
  (forall k, 0 <= k < 4 ->
     in_grid (r + k * dr, c + k * dc) /\
     cell_at state (r + k * dr) (c + k * dc) = Some x) ->
  holds state x (line_cells (r, c) (dr, dc)).
Proof.
  intros H. unfold holds, line_cells. apply Forall_fmap, Forall_forall.
  intros k Hk%elem_of_range. simpl. by apply H.
Qed.

Lemma holds_line_inv state x (r c dr dc : Z) :
  holds state x (line_cells (r, c) (dr, dc)) ->
  forall k, 0 <= k < 4 ->
    in_grid (r + k * dr, c + k * dc) /\
    cell_at state (r + k * dr) (c + k * dc) = Some x.
Proof.
  unfold holds, line_cells. intros H k Hk.
  apply Forall_fmap in H.
  by apply (proj1 (Forall_forall _ _) H k), elem_of_range.
Qed.

Lemma cell_at_row (state : board) (n : nat) row col :
  state !! n = Some row -> cell_at state (Z.of_nat n) col = py_index row col.
Proof.
  intros Hn. unfold cell_at. rewrite py_index_nonneg by lia.
  by rewrite Nat2Z.id, Hn.
Qed.

(** A read at coordinates equal to those of a known read. *)
Ltac by_read :=
  match goal with
  | H : cell_at ?s ?a ?b = Some ?x |- cell_at ?s ?a' ?b' = Some ?x =>
      replace a' with a by lia; replace b' with b by lia; exact H
  end.

Ltac four_cases k Hk :=
  let H := fresh in
  assert (k = 0 \/ k = 1 \/ k = 2 \/ k = 3) as H by lia;
  destruct H as [->|[->|[->| ->]]].

Section winning_patterns.
Variables (p : Teeko2Player) (state : board).
Hypothesis Hwf : wf_board state.

Local Abbreviation found := (found p state).

Lemma horizontal_found v : horizontal p state = Return v -> found v.
Proof.
  unfold horizontal. intros H.
  apply for_Return in H as (row & [] & Hrow & H).
  apply for_Return in H as (i & [] & Hi%elem_of_range & H).
  apply win_if_line in H as (x & Hx & -> & H0 & H1 & H2 & H3).
  apply list_elem_of_lookup in Hrow as [n Hn].
  assert (n < 5)%nat by (destruct Hwf as [<- _]; by eapply lookup_lt_Some).
  rewrite <-(cell_at_row state n row) in H0, H1, H2, H3 by done.
  exists x. split; [|done]. split; [done|]. left.
  exists (Z.of_nat n, i), (0, 1). split; [apply list_elem_of_In; simpl; auto|].
  apply holds_line. intros k Hk. split; [split; simpl; lia|].
  four_cases k Hk; by_read.
Qed.

Lemma vertical_found v : vertical p state = Return v -> found v.
Proof.
  unfold vertical. intros H.
  apply for_Return in H as (col & [] & Hcol%elem_of_range & H).
  apply for_Return in H as (i & [] & Hi%elem_of_range & H).
  apply win_if_line in H as (x & Hx & -> & H0 & H1 & H2 & H3).
  exists x. split; [|done]. split; [done|]. left.
  exists (i, col), (1, 0). split; [apply list_elem_of_In; simpl; auto|].
  apply holds_line. intros k Hk. split; [split; simpl; lia|].
  four_cases k Hk; by_read.
Qed.

Lemma diagonal_found v : diagonal p state = Return v -> found v.
Proof.
  unfold diagonal. intros H.
  apply for_Return in H as (row & [] & Hrow%elem_of_range & H).
  apply for_Return in H as (col & [] & Hcol%elem_of_range & H).
  apply win_if_line in H as (x & Hx & -> & H0 & H1 & H2 & H3).
  exists x. split; [|done]. split; [done|]. left.
  exists (row, col), (1, 1). split; [apply list_elem_of_In; simpl; auto|].
  apply holds_line. intros k Hk. split; [split; simpl; lia|].
  four_cases k Hk; by_read.
Qed.

Lemma antidiagonal_found v : antidiagonal p state = Return v -> found v.
Proof.
  unfold antidiagonal. intros H.
  apply for_Return in H as (row & [] & Hrow%elem_of_range & H).
  apply for_Return in H as (col & [] & Hcol%elem_of_range & H).
  apply win_if_line in H as (x & Hx & -> & H0 & H1 & H2 & H3).
  exists x. split; [|done]. split; [done|]. left.
  exists (row, 4 - col), (1, -1). split; [apply list_elem_of_In; simpl; auto|].
  apply holds_line. intros k Hk. split; [split; simpl; lia|].
  four_cases k Hk; by_read.
Qed.

Lemma corners_box_found v : corners p state = Return v -> found v.
Proof.
  unfold corners. intros H.
  apply for_Return in H as (row & [] & Hrow%elem_of_range & H).
  apply for_Return in H as (col & [] & Hcol%elem_of_range & H).
  apply win_if_box in H as (x & Hx & -> & Hm & H0 & H1 & H2 & H3).
  exists x. split; [|done]. split; [done|]. right.
  exists row, col. split_and!; try lia; try done.
  unfold holds, box_corners.
  repeat (apply Forall_cons_2; [split; [split; simpl; lia|done]|]).
  constructor.
Qed.
End winning_patterns.

Section winning_patterns_found.
Variables (p : Teeko2Player) (state : board).
Hypothesis Hwf : wf_board state.

Lemma found_nonzero : ~ found p state 0.
Proof. intros (x & _ & Hx). by apply (winner_nonzero p x). Qed.

(** Where game_value returns 0, each of the five scans fell through. *)
Lemma game_value_zero_inv :
  game_value p state = Some 0 ->
  horizontal p state = Continue tt /\ vertical p state = Continue tt /\
  diagonal p state = Continue tt /\ antidiagonal p state = Continue tt /\
  corners p state = Continue tt.
Proof.
  pose proof found_nonzero as Hnz.
  pose proof (horizontal_found p state Hwf 0).
  pose proof (vertical_found p state 0).
  pose proof (diagonal_found p state 0).
  pose proof (antidiagonal_found p state 0).
  pose proof (corners_box_found p state 0).
  unfold game_value, then_, finish.
  repeat case_match; try done; intros ?; simplify_eq;
    try (exfalso; auto; fail);
    repeat match goal with u : unit |- _ => destruct u end; done.
Qed.

Lemma line_horizontal x r c :
  holds state x (line_cells (r, c) (0, 1)) -> x <> empty ->
  horizontal p state <> Continue tt.
Proof.
  intros Hline Hx Hgo.
  pose proof (holds_line_inv state x r c 0 1 Hline) as Hk.
  destruct (Hk 0 ltac:(lia)) as [[Hr0 Hc0] H0], (Hk 3 ltac:(lia)) as [[_ Hc3] H3],
    (Hk 1 ltac:(lia)) as [_ H1], (Hk 2 ltac:(lia)) as [_ H2]. simpl in *.
  destruct (lookup_lt_is_Some_2 state (Z.to_nat r)) as [row Hrow];
    [destruct Hwf; lia|].
  unfold horizontal in Hgo.
  apply for_Continue_unit with (x := row) in Hgo; [|by eapply list_elem_of_lookup_2].
  apply for_Continue_unit with (x := c) in Hgo; [|apply elem_of_range; lia].
  rewrite <-!(cell_at_row state (Z.to_nat r) row) in Hgo by done.
  assert (cell_at state (Z.of_nat (Z.to_nat r)) c = Some x) as E0 by by_read.
  assert (cell_at state (Z.of_nat (Z.to_nat r)) (c + 1) = Some x) as E1 by by_read.
  assert (cell_at state (Z.of_nat (Z.to_nat r)) (c + 2) = Some x) as E2 by by_read.
  assert (cell_at state (Z.of_nat (Z.to_nat r)) (c + 3) = Some x) as E3 by by_read.
  by rewrite E0, E1, E2, E3, line4_same in Hgo.
Qed.

Lemma line_vertical x r c :
  holds state x (line_cells (r, c) (1, 0)) -> x <> empty ->
  vertical p state <> Continue tt.
Proof.
  intros Hline Hx Hgo.
  pose proof (holds_line_inv state x r c 1 0 Hline) as Hk.
  destruct (Hk 0 ltac:(lia)) as [[Hr0 Hc0] H0], (Hk 3 ltac:(lia)) as [[Hr3 _] H3],
    (Hk 1 ltac:(lia)) as [_ H1], (Hk 2 ltac:(lia)) as [_ H2]. simpl in *.
  unfold vertical in Hgo.
  apply for_Continue_unit with (x := c) in Hgo; [|apply elem_of_range; lia].
  apply for_Continue_unit with (x := r) in Hgo; [|apply elem_of_range; lia].
  assert (cell_at state r c = Some x) as E0 by by_read.
  assert (cell_at state (r + 1) c = Some x) as E1 by by_read.
  assert (cell_at state (r + 2) c = Some x) as E2 by by_read.
  assert (cell_at state (r + 3) c = Some x) as E3 by by_read.
  by rewrite E0, E1, E2, E3, line4_same in Hgo.
Qed.

Lemma line_diagonal x r c :
  holds state x (line_cells (r, c) (1, 1)) -> x <> empty ->
  diagonal p state <> Continue tt.
Proof.
  intros Hline Hx Hgo.
  pose proof (holds_line_inv state x r c 1 1 Hline) as Hk.
  destruct (Hk 0 ltac:(lia)) as [[Hr0 Hc0] H0], (Hk 3 ltac:(lia)) as [[Hr3 Hc3] H3],
    (Hk 1 ltac:(lia)) as [_ H1], (Hk 2 ltac:(lia)) as [_ H2]. simpl in *.
  unfold diagonal in Hgo.
  apply for_Continue_unit with (x := r) in Hgo; [|apply elem_of_range; lia].
  apply for_Continue_unit with (x := c) in Hgo; [|apply elem_of_range; lia].
  assert (cell_at state r c = Some x) as E0 by by_read.
  assert (cell_at state (r + 1) (c + 1) = Some x) as E1 by by_read.
  assert (cell_at state (r + 2) (c + 2) = Some x) as E2 by by_read.
  assert (cell_at state (r + 3) (c + 3) = Some x) as E3 by by_read.
  by rewrite E0, E1, E2, E3, line4_same in Hgo.
Qed.

Lemma line_antidiagonal x r c :
  holds state x (line_cells (r, c) (1, -1)) -> x <> empty ->
  antidiagonal p state <> Continue tt.
Proof.
  intros Hline Hx Hgo.
  pose proof (holds_line_inv state x r c 1 (-1) Hline) as Hk.
  destruct (Hk 0 ltac:(lia)) as [[Hr0 Hc0] H0], (Hk 3 ltac:(lia)) as [[Hr3 Hc3] H3],
    (Hk 1 ltac:(lia)) as [_ H1], (Hk 2 ltac:(lia)) as [_ H2]. simpl in *.
  unfold antidiagonal in Hgo.
  apply for_Continue_unit with (x := r) in Hgo; [|apply elem_of_range; lia].
  apply for_Continue_unit with (x := 4 - c) in Hgo; [|apply elem_of_range; lia].
  assert (cell_at state r (4 - (4 - c)) = Some x) as E0 by by_read.
  assert (cell_at state (r + 1) (3 - (4 - c)) = Some x) as E1 by by_read.
  assert (cell_at state (r + 2) (2 - (4 - c)) = Some x) as E2 by by_read.
  assert (cell_at state (r + 3) (1 - (4 - c)) = Some x) as E3 by by_read.
  by rewrite E0, E1, E2, E3, line4_same in Hgo.
Qed.

Lemma wins_nonzero x : wins state x -> game_value p state <> Some 0.
Proof.
  intros [Hx Hwin] (Hh & Hv & Hd & Ha & Hc)%game_value_zero_inv.
  destruct Hwin as [([r c] & dir & Hdir & Hline)|(r & c & Hr & Hc' & Hbox & Hmid)].
  - apply list_elem_of_In in Hdir. simpl in Hdir.
    destruct Hdir as [<-|[<-|[<-|[<-|[]]]]].
    + by apply (line_horizontal x r c).
    + by apply (line_vertical x r c).
    + by apply (line_diagonal x r c).
    + by apply (line_antidiagonal x r c).
  - apply (corners_found p state r c x); try done.
    intros rc Hrc. by apply (proj1 (Forall_forall _ _) Hbox rc).
Qed.

Lemma game_value_found v :
  game_value p state = Some v -> v = 0 \/ found p state v.
Proof.
  pose proof (horizontal_found p state Hwf).
  pose proof (vertical_found p state).
  pose proof (diagonal_found p state).
  pose proof (antidiagonal_found p state).
  pose proof (corners_box_found p state).
  unfold game_value, then_, finish.
  repeat case_match; try done; intros ?; simplify_eq; auto.
Qed.
End winning_patterns_found.

(** ** game_value on the patterns of the rules *)

(** Where the four scans of lines fall through, no marker has a line. *)
Lemma no_line_of_scans p state :
  wf_board state ->
  horizontal p state = Continue tt -> vertical p state = Continue tt ->
  diagonal p state = Continue tt -> antidiagonal p state = Continue tt ->
  forall x, x <> empty -> ~ has_line state x.
Proof.
  intros Hwf Hh Hv Hd Ha x Hx ([r c] & dir & Hdir & Hline).
  apply list_elem_of_In in Hdir. simpl in Hdir.
  destruct Hdir as [<-|[<-|[<-|[<-|[]]]]].
  - by apply (line_horizontal p state Hwf x r c).
  - by apply (line_vertical p state x r c).
  - by apply (line_diagonal p state x r c).
  - by apply (line_antidiagonal p state x r c).
Qed.

Lemma holds_box_corners state x r c :
  holds state x (box_corners r c) ->
  cell_at state r c = Some x /\ cell_at state r (c + 2) = Some x /\
  cell_at state (r + 2) c = Some x /\ cell_at state (r + 2) (c + 2) = Some x.
Proof.
  unfold holds, box_corners. intros H.
  apply Forall_cons in H as [[_ H0] H]. apply Forall_cons in H as [[_ H1] H].
  apply Forall_cons in H as [[_ H2] H]. apply Forall_cons in H as [[_ H3] _].
  done.
Qed.

Lemma box_corners_holds state x r c :
  0 <= r < 3 -> 0 <= c < 3 ->
  (forall rc, rc ∈ box_corners r c -> cell_at state rc.1 rc.2 = Some x) ->
  holds state x (box_corners r c).
Proof.
  intros Hr Hc Hbox. apply Forall_forall. intros rc Hrc.
  split; [|by apply Hbox].
  apply list_elem_of_In in Hrc. simpl in Hrc.
  destruct Hrc as [<-|[<-|[<-|[<-|[]]]]]; split; simpl; lia.
Qed.

(** C5. game_value returns 1 on every board whose cells (0,0) to (0,3) hold
    my_piece, -1 when they hold the opponent's piece, and 0 on the empty
    board.  Box pattern: on a 5x5 board where my_piece holds the four
    corners of a 3x3 square around an empty centre and no other marker has a
    winning pattern, it returns 1, whatever else the board holds; on a 5x5
    board without a line of four where every 3x3 square with four equal
    markers on its corners has an occupied centre, it returns 0. *)
Theorem game_value_patterns :
  (forall p state,
     my_piece p <> empty ->
     (forall col, 0 <= col < 4 -> cell_at state 0 col = Some (my_piece p)) ->
     game_value p state = Some 1) /\
  (forall p state,
     opp p <> empty -> opp p <> my_piece p ->
     (forall col, 0 <= col < 4 -> cell_at state 0 col = Some (opp p)) ->
     game_value p state = Some (-1)) /\
  (forall p, game_value p empty_board = Some 0) /\
  (forall p state r c,
     wf_board state -> 0 <= r < 3 -> 0 <= c < 3 -> my_piece p <> empty ->
     (forall rc, rc ∈ box_corners r c ->
                 cell_at state rc.1 rc.2 = Some (my_piece p)) ->
     cell_at state (r + 1) (c + 1) = Some empty ->
     (forall x, x <> my_piece p -> ~ wins state x) ->
     game_value p state = Some 1) /\
  (forall p state,
     wf_board state ->
     (forall x, x <> empty -> ~ has_line state x) ->
     (forall r c x,
        0 <= r < 3 -> 0 <= c < 3 -> x <> empty ->
        (forall rc, rc ∈ box_corners r c -> cell_at state rc.1 rc.2 = Some x) ->
        cell_at state (r + 1) (c + 1) <> Some empty) ->
     game_value p state = Some 0).
Proof.
  split_and!.
  - intros p state Hmy Hrow.
    rewrite (game_value_top_row p state (my_piece p)) by done.
    by rewrite winner_my_piece.
  - intros p state Ho Hne Hrow.
    rewrite (game_value_top_row p state (opp p)) by done.
    by rewrite winner_other.
  - intros p. reflexivity.
  - intros p state r c Hwf Hr Hc Hmy Hbox Hmid Hother.
    destruct (game_value_is_Some p state Hwf) as [v Hv].
    destruct (game_value_found p state Hwf v Hv) as [->|(x & Hx & ->)].
    + destruct (wins_nonzero p state Hwf (my_piece p)); [|done].
      split; [done|]. right. exists r, c.
      split_and!; try done; try lia. by apply box_corners_holds.
    + destruct (Ascii.eqb_spec x (my_piece p)) as [->|Hne].
      * by rewrite Hv, winner_my_piece.
      * by destruct (Hother x Hne).
  - intros p state Hwf Hline Hbox.
    destruct (game_value_is_Some p state Hwf) as [v Hv].
    destruct (game_value_found p state Hwf v Hv)
      as [->|(x & [Hx [Hl|(r & c & Hr & Hc & Hholds & Hmid)]] & ->)]; [done| |].
    + by destruct (Hline x Hx).
    + destruct (Hbox r c x Hr Hc Hx); [|done].
      intros rc Hrc. by apply (proj1 (Forall_forall _ _) Hholds rc).
Qed.

Lemma wf_board_box : wf_board board_box.
Proof. split; [reflexivity|]. repeat constructor. Defined.

Lemma wf_board_box_blocked : wf_board board_box_blocked.
Proof. split; [reflexivity|]. repeat constructor. Defined.

Ltac each_square r c Hr Hc :=
  let Hr' := fresh in let Hc' := fresh in
  assert (r = 0 \/ r = 1 \/ r = 2) as Hr' by lia;
  assert (c = 0 \/ c = 1 \/ c = 2) as Hc' by lia;
  clear Hr Hc;
  destruct Hr' as [->|[->| ->]], Hc' as [->|[->| ->]].

(** On [board_box] no marker other than 'b' has a winning pattern. *)
Lemma board_box_no_other_win x : x <> black -> ~ wins board_box x.
Proof.
  intros Hx [Hne [Hline|(r & c & Hr & Hc & Hbox & Hmid)]].
  - revert Hline.
    by apply (no_line_of_scans (player_of black 7) board_box wf_board_box).
  - apply holds_box_corners in Hbox as (H0 & H1 & H2 & H3).
    each_square r c Hr Hc; vm_compute in H0, H1, H2, H3, Hmid;
      simplify_eq; done.
Defined.

(** On [board_box_blocked] every square with equal corners has an
    occupied centre. *)
Lemma board_box_blocked_centres r c x :
  0 <= r < 3 -> 0 <= c < 3 -> x <> empty ->
  (forall rc, rc ∈ box_corners r c ->
              cell_at board_box_blocked rc.1 rc.2 = Some x) ->
  cell_at board_box_blocked (r + 1) (c + 1) <> Some empty.
Proof.
  intros Hr Hc Hx Hbox Hmid.
  apply box_corners_holds, holds_box_corners in Hbox as (H0 & H1 & H2 & H3);
    [|done..].
  each_square r c Hr Hc; vm_compute in H0, H1, H2, H3, Hmid;
    simplify_eq; done.
Defined.

Lemma game_value_patterns_witness :
  game_value (player_of black 1) board_top_row = Some 1 /\
  game_value (player_of red 1) board_top_row = Some (-1) /\
  game_value (player_of black 7) board_box = Some 1 /\
  game_value (player_of black 7) board_box_blocked = Some 0.
Proof.
  destruct game_value_patterns as (Hmine & Htheirs & _ & Hbox & Hfull).
  assert (forall col, 0 <= col < 4 ->
                      cell_at board_top_row 0 col = Some black) as Hrow.
  { intros col Hcol.
    assert (col = 0 \/ col = 1 \/ col = 2 \/ col = 3) as [->|[->|[->| ->]]] by lia;
      reflexivity. }
  split_and!.
  - apply Hmine; [done|exact Hrow].
  - apply Htheirs; [done|done|exact Hrow].
  - apply (Hbox (player_of black 7) board_box 0 0);
      [exact wf_board_box|lia|lia|done| |reflexivity|exact board_box_no_other_win].
    intros rc Hrc. apply list_elem_of_In in Hrc. simpl in Hrc.
    destruct Hrc as [<-|[<-|[<-|[<-|[]]]]]; reflexivity.
  - apply (Hfull (player_of black 7) board_box_blocked);
      [exact wf_board_box_blocked| |exact board_box_blocked_centres].
    by apply (no_line_of_scans (player_of black 7) board_box_blocked
                wf_board_box_blocked).
Defined.

(** X1. On a 5x5 board game_value raises nothing and tells exactly whether a
    marker has four in a line (row, column or diagonal) or the corners of a
    3x3 square with an empty centre: it returns 0 if and only if no marker
    has such a pattern, 1 only if my_piece has one, and -1 only if another
    marker has one. *)
Theorem game_value_wins p state :
  wf_board state ->
  (exists v, game_value p state = Some v /\ (v = -1 \/ v = 0 \/ v = 1)) /\
  (game_value p state = Some 0 <-> forall x, ~ wins state x) /\
  (game_value p state = Some 1 -> wins state (my_piece p)) /\
  (game_value p state = Some (-1) -> exists x, x <> my_piece p /\ wins state x).
Proof.
  intros Hwf. destruct (game_value_is_Some p state Hwf) as [v Hv].
  pose proof (game_value_found p state Hwf v Hv) as Hfound.
  split_and!.
  - exists v. split; [done|].
    destruct Hfound as [->|(x & _ & ->)]; [auto|].
    unfold winner. case_match; auto.
  - split.
    + intros H0 x Hx. by apply (wins_nonzero p state Hwf x).
    + intros Hnone. destruct Hfound as [->|(x & Hx & _)]; [done|].
      by destruct (Hnone x).
  - intros H1. rewrite H1 in Hv. simplify_eq.
    destruct Hfound as [?|(x & Hx & Hw)]; [done|].
    unfold winner in Hw. destruct (Ascii.eqb_spec x (my_piece p)); by simplify_eq.
  - intros H1. rewrite H1 in Hv. simplify_eq.
    destruct Hfound as [?|(x & Hx & Hw)]; [done|].
    exists x. split; [|done]. intros ->. by rewrite winner_my_piece in Hw.
Qed.

Lemma game_value_wins_witness :
  (exists v, game_value (player_of black 1) board_top_row = Some v /\
             (v = -1 \/ v = 0 \/ v = 1)) /\
  (game_value (player_of black 1) board_top_row = Some 0 <->
   forall x, ~ wins board_top_row x) /\
  (game_value (player_of black 1) board_top_row = Some 1 ->
   wins board_top_row (my_piece (player_of black 1))) /\
  (game_value (player_of black 1) board_top_row = Some (-1) ->
   exists x, x <> my_piece (player_of black 1) /\ wins board_top_row x).
Proof.
  apply (game_value_wins (player_of black 1) board_top_row).
  split; [reflexivity|]. repeat constructor.
Defined.

(** ** succ generates every legal move *)

Lemma moves_placements_eq state turn_piece l :
  wf_board state -> Forall in_grid l ->
  map fst (flat_map (placement state turn_piece) l)
  = map (fun rc => [rc]) (List.filter (is_empty_at state) l).
Proof.
  intros Hwf Hgrid. induction Hgrid as [|rc l Hrc _ IH]; simpl; [done|].
  rewrite map_app, IH. unfold placement, is_empty_at.
  destruct (wf_board_cell_at state rc.1 rc.2 Hwf) as [x ->]; [apply Hrc..|].
  destruct (set_cell_is_Some state rc.1 rc.2 turn_piece Hwf) as [state' ->];
    [by destruct rc|].
  destruct (Ascii.eqb x empty); [|done]. simpl. by destruct rc.
Qed.

Lemma slide_legal state turn_piece src dst :
  wf_board state -> in_grid src -> in_grid dst -> dst <> src ->
  cell_at state dst.1 dst.2 = Some empty ->
  exists state',
    slide state turn_piece src (dst.1 - src.1, dst.2 - src.2)
    = [([dst; src], state')].
Proof.
  intros Hwf Hsrc Hdst Hne Hempty.
  destruct src as [r c], dst as [r' c'], Hsrc as [Hr Hc], Hdst as [Hr' Hc'].
  simpl in *. unfold slide. simpl.
  replace (r + (r' - r)) with r' by lia. replace (c + (c' - c)) with c' by lia.
  assert (negb (r' - r =? 0) || negb (c' - c =? 0) = true) as ->.
  { apply orb_true_iff.
    destruct (Z.eqb_spec (r' - r) 0), (Z.eqb_spec (c' - c) 0); simpl; auto.
    exfalso. apply Hne. f_equal; lia. }
  assert (in_range r' 5 = true) as -> by (unfold in_range; lia).
  assert (in_range c' 5 = true) as -> by (unfold in_range; lia).
  simpl. rewrite Hempty, Ascii.eqb_refl.
  destruct (set_cell_is_Some state r' c' turn_piece Hwf) as [s1 Hs1]; [done|].
  rewrite Hs1. simpl.
  assert (wf_board s1) as Hwf1 by (eapply set_cell_wf; [..|done|done]; lia).
  destruct (set_cell_is_Some s1 r c empty Hwf1) as [s2 ->]; [done|].
  by exists s2.
Qed.

Lemma relocation_legal state turn_piece src dst :
  wf_board state -> in_grid src -> in_grid dst -> dst <> src ->
  chebyshev dst src <= 1 ->
  cell_at state src.1 src.2 = Some turn_piece ->
  cell_at state dst.1 dst.2 = Some empty ->
  [dst; src] ∈ map fst (flat_map (relocation state turn_piece) positions).
Proof.
  intros Hwf Hsrc Hdst Hne Hnear Hpiece Hempty.
  destruct (slide_legal state turn_piece src dst) as [state' Hslide]; try done.
  apply list_elem_of_fmap. exists ([dst; src], state'). split; [done|].
  apply list_elem_of_In, in_flat_map. exists src.
  split; [by apply list_elem_of_In, elem_of_positions|].
  unfold relocation. rewrite Hpiece, Ascii.eqb_refl.
  apply in_flat_map. exists (dst.1 - src.1, dst.2 - src.2). split.
  - apply list_elem_of_In, elem_of_offsets. unfold chebyshev in Hnear. simpl. lia.
  - rewrite Hslide. by left.
Qed.

(** X3. In the drop phase the moves that succ returns are the empty cells of
    the board, each once, in the order of the rows and of the columns in a
    row. *)
Theorem succ_drop_phase_moves p h l state turn_piece :
  drop_phase_check p < 9 -> wf_board state -> Store.board_at h l state ->
  exists h' successors,
    Store.succ p h l turn_piece = Some (h', successors) /\
    map fst successors
    = map (fun rc => [rc]) (List.filter (is_empty_at state) positions).
Proof.
  intros Hd Hwf Hb.
  destruct (store_succ_entries (fun _ _ => True) p h l state turn_piece
              (flat_map (placement state turn_piece) positions) Hb)
    as (h' & es & Hsucc & _ & _ & _ & Hmoves & _).
  { by apply succ_drop_phase_eq. }
  { by apply Forall_forall. }
  exists h', es. split; [done|]. rewrite Hmoves.
  apply moves_placements_eq; [done|apply Forall_in_grid_positions].
Qed.

Lemma succ_drop_phase_moves_witness :
  exists h' successors,
    Store.succ (player_of black 7) store_b_to_win.1 store_b_to_win.2 black
      = Some (h', successors) /\
    map fst successors
    = map (fun rc => [rc]) (List.filter (is_empty_at board_b_to_win) positions).
Proof.
  apply (succ_drop_phase_moves (player_of black 7) store_b_to_win.1
           store_b_to_win.2 board_b_to_win black).
  - simpl. lia.
  - exact wf_board_b_to_win.
  - exact board_at_store_b_to_win.
Defined.

(** X4. After the drop phase succ misses no legal move: for every cell that
    holds the piece and every empty cell of the grid next to it (Chebyshev
    distance 1) the move (destination, source) is among the successors. *)
Theorem succ_move_phase_complete p h l state turn_piece :
  9 <= drop_phase_check p -> wf_board state -> Store.board_at h l state ->
  exists h' successors,
    Store.succ p h l turn_piece = Some (h', successors) /\
    forall src dst,
      in_grid src -> in_grid dst -> dst <> src -> chebyshev dst src <= 1 ->
      cell_at state src.1 src.2 = Some turn_piece ->
      cell_at state dst.1 dst.2 = Some empty ->
      [dst; src] ∈ map fst successors.
Proof.
  intros Hd Hwf Hb.
  destruct (store_succ_entries (fun _ _ => True) p h l state turn_piece
              (flat_map (relocation state turn_piece) positions) Hb)
    as (h' & es & Hsucc & _ & _ & _ & Hmoves & _).
  { by apply succ_move_phase_eq. }
  { by apply Forall_forall. }
  exists h', es. split; [done|]. intros src dst. rewrite Hmoves.
  by apply relocation_legal.
Qed.

Lemma succ_move_phase_complete_witness :
  exists h' successors,
    Store.succ (player_of black 9) store_midgame.1 store_midgame.2 black
      = Some (h', successors) /\
    forall src dst,
      in_grid src -> in_grid dst -> dst <> src -> chebyshev dst src <= 1 ->
      cell_at board_midgame src.1 src.2 = Some black ->
      cell_at board_midgame dst.1 dst.2 = Some empty ->
      [dst; src] ∈ map fst successors.
Proof.
  apply (succ_move_phase_complete (player_of black 9) store_midgame.1
           store_midgame.2 board_midgame black).
  - simpl. lia.
  - exact wf_board_midgame.
  - exact board_at_store_midgame.
Defined.

(** ** The search raises nothing on 5x5 boards *)

Lemma for_invariant {X S R} (I : S -> Prop) (xs : list X)
    (body : X -> S -> flow S R) s :
  (forall x s, x ∈ xs -> I s -> exists s', body x s = Continue s' /\ I s') ->
  I s -> exists s', for_ xs body s = Continue s' /\ I s'.
Proof.
  revert s. induction xs as [|x xs IH]; intros s Hbody Hs; simpl; [eauto|].
  destruct (Hbody x s ltac:(left) Hs) as (s' & -> & Hs').
  apply IH; [|done]. intros y t Hy. apply Hbody. by right.
Qed.

Lemma succ_wf p state turn_piece :
  wf_board state ->
  exists vs, succ p state turn_piece = Some vs /\
             Forall (fun v => wf_board v.2) vs.
Proof.
  intros Hwf. destruct (Z.lt_ge_cases (drop_phase_check p) 9) as [Hd|Hd].
  - eexists. split; [by apply succ_drop_phase_eq|].
    apply Forall_forall. intros v Hv.
    apply list_elem_of_In, in_flat_map in Hv as (rc & Hrc & Hv).
    destruct (placement_places state turn_piece Hwf rc v)
      as (? & ? & _ & _ & _ & Hwf' & _);
      [by apply elem_of_positions, list_elem_of_In|by apply list_elem_of_In|done].
  - eexists. split; [by apply succ_move_phase_eq|].
    apply Forall_forall. intros v Hv.
    apply list_elem_of_In, in_flat_map in Hv as (rc & Hrc & Hv).
    destruct (relocation_relocates state turn_piece Hwf rc v)
      as (_ & ? & ? & _ & Hwf' & _);
      [by apply elem_of_positions, list_elem_of_In|by apply list_elem_of_In|done].
Qed.

Lemma heuristic_game_value_is_Some p state :
  wf_board state -> is_Some (heuristic_game_value p state).
Proof.
  intros Hwf. destruct (Z.lt_ge_cases (drop_phase_check p) 3) as [Hd|Hd].
  - destruct (heuristic_game_value_active p state Hwf Hd) as (v & -> & _). eauto.
  - rewrite heuristic_game_value_inactive by done. eauto.
Qed.

Lemma search_is_Some p depth : forall state alpha beta,
  wf_board state ->
  is_Some (max_value p depth state alpha beta) /\
  is_Some (min_value p depth state alpha beta).
Proof.
  induction depth as [|depth IH]; intros state alpha beta Hwf;
    destruct (game_value_is_Some p state Hwf) as [v Hv].
  - simpl. rewrite Hv. simpl.
    destruct (negb (v =? 0)); [eauto|].
    split; by apply heuristic_game_value_is_Some.
  - simpl. rewrite Hv. simpl.
    destruct (negb (v =? 0)); [eauto|]. split.
    + destruct (succ_wf p state (my_piece p) Hwf) as (vs & -> & Hvs). simpl.
      destruct (for_ vs _ alpha) as [a|r|] eqn:Hfor; simpl; [eauto|eauto|].
      exfalso. revert Hfor. apply for_not_Raise.
      intros [m s] Hin a.
      destruct (IH s a beta) as [_ [w ->]].
      { by apply (proj1 (Forall_forall _ _) Hvs (m, s)). }
      simpl. by case_match.
    + destruct (succ_wf p state (opp p) Hwf) as (vs & -> & Hvs). simpl.
      destruct (for_ vs _ beta) as [a|r|] eqn:Hfor; simpl; [eauto|eauto|].
      exfalso. revert Hfor. apply for_not_Raise.
      intros [m s] Hin b.
      destruct (IH state alpha b Hwf) as [[w ->] _].
      simpl. by case_match.
Qed.

Lemma count_turn_my_piece p : my_piece (count_turn p) = my_piece p.
Proof. done. Qed.

(** make_move is the move of one of the successors of [succ], the first
    one unless a later one scores more; without successors the read of
    [successors[0]] raises. *)
Lemma make_move_of_succ p state :
  wf_board state ->
  exists vs,
    succ (count_turn p) state (my_piece p) = Some vs /\
    (vs = [] -> make_move p state = None) /\
    (vs <> [] -> exists m, make_move p state = Some (m, count_turn p) /\
                           m ∈ map fst vs).
Proof.
  intros Hwf.
  destruct (succ_wf (count_turn p) state (my_piece p) Hwf) as (vs & Hvs & Hwfs).
  exists vs. split; [done|]. unfold make_move. rewrite count_turn_my_piece, Hvs.
  cbn -[min_value]. split.
  - by intros ->.
  - intros Hne. destruct vs as [|v0 vs']; [done|]. clear Hne.
    cbn -[min_value for_].
    change ((v0 :: vs') !! Z.to_nat 0) with (Some v0).
    cbn [mbind option_bind].
    match goal with
    | |- context [for_ ?vs ?body v0] =>
        destruct (for_invariant (fun best : move * board => best ∈ vs) vs body v0)
          as (best & Hfor & Hbest)
    end.
    + intros [m s] [bm bs] Hin Hb.
      destruct (search_is_Some (count_turn p) 2 s (-1000)%Q 1000%Q) as [_ [v ->]].
      { by apply (proj1 (Forall_forall _ _) Hwfs (m, s)). }
      destruct (search_is_Some (count_turn p) 2 bs (-1000)%Q 1000%Q) as [_ [w ->]].
      { by apply (proj1 (Forall_forall _ _) Hwfs (bm, bs)). }
      cbn -[min_value]. case_match; eauto.
    + by left.
    + rewrite Hfor. cbn -[min_value]. eexists. split; [done|].
      by apply (list_elem_of_fmap_2 fst (v0 :: vs') best).
Qed.

(** ** make_move answers with a legal move *)

(** X6. In the drop phase, on a 5x5 board, make_move returns a single
    placement on an empty cell of the grid and the player with the counter
    advanced; on a board without an empty cell it raises IndexError. *)
Theorem make_move_drop_phase p state :
  wf_board state -> drop_phase_check (count_turn p) < 9 ->
  ((0 < count_cells empty state)%nat ->
   exists row col,
     make_move p state = Some ([(row, col)], count_turn p) /\
     in_grid (row, col) /\ cell_at state row col = Some empty) /\
  (count_cells empty state = 0%nat -> make_move p state = None).
Proof.
  intros Hwf Hd.
  destruct (make_move_of_succ p state Hwf) as (vs & Hvs & Hnone & Hsome).
  rewrite (succ_drop_phase_eq _ _ _ Hwf Hd) in Hvs. simplify_eq.
  pose proof (length_placements state (my_piece p) Hwf positions (concat state)
                Forall_in_grid_positions (positions_concat state Hwf)) as Hlen.
  rewrite count_occ_concat in Hlen. split.
  - intros Hpos. destruct Hsome as (m & Hm & Hin).
    { intros Hnil. rewrite Hnil in Hlen. simpl in Hlen. lia. }
    rewrite moves_placements_eq in Hin by (done || apply Forall_in_grid_positions).
    apply list_elem_of_fmap in Hin as ([row col] & -> & Hrc).
    apply list_elem_of_In, filter_In in Hrc as [Hgrid%list_elem_of_In%elem_of_positions Hrc].
    exists row, col. split_and!; [done|done|].
    unfold is_empty_at in Hrc. simpl in Hrc.
    destruct (cell_at state row col) as [x|]; [|done].
    by apply Ascii.eqb_eq in Hrc as ->.
  - intros Hzero. apply Hnone. apply length_zero_iff_nil. lia.
Qed.

Lemma make_move_drop_phase_witness :
  ((0 < count_cells empty board_b_to_win)%nat ->
   exists row col,
     make_move (player_of black 5) board_b_to_win
       = Some ([(row, col)], count_turn (player_of black 5)) /\
     in_grid (row, col) /\ cell_at board_b_to_win row col = Some empty) /\
  (count_cells empty board_b_to_win = 0%nat ->
   make_move (player_of black 5) board_b_to_win = None).
Proof.
  apply (make_move_drop_phase (player_of black 5) board_b_to_win).
  - exact wf_board_b_to_win.
  - simpl. lia.
Defined.

(** X7. After the drop phase, on a 5x5 board, make_move returns a legal
    relocation of my_piece whenever one exists; when my_piece has no legal
    relocation it raises IndexError. *)
Theorem make_move_move_phase p state :
  wf_board state -> 9 <= drop_phase_check (count_turn p) ->
  ((exists src dst, legal_relocation state (my_piece p) src dst) ->
   exists src dst,
     make_move p state = Some ([dst; src], count_turn p) /\
     legal_relocation state (my_piece p) src dst) /\
  ((forall src dst, ~ legal_relocation state (my_piece p) src dst) ->
   make_move p state = None).
Proof.
  intros Hwf Hd.
  destruct (make_move_of_succ p state Hwf) as (vs & Hvs & Hnone & Hsome).
  rewrite (succ_move_phase_eq _ _ _ Hwf Hd) in Hvs. simplify_eq.
  assert (forall m, m ∈ map fst (flat_map (relocation state (my_piece p)) positions) ->
            exists src dst, m = [dst; src] /\
                            legal_relocation state (my_piece p) src dst) as Hlegal.
  { intros m (v & -> & Hv)%list_elem_of_fmap.
    apply list_elem_of_In, in_flat_map in Hv as (rc & Hrc & Hv).
    destruct (relocation_relocates state (my_piece p) Hwf rc v)
      as ((src & dst & Hm & ? & ? & ? & ? & ? & ? & _) & _);
      [by apply elem_of_positions, list_elem_of_In|by apply list_elem_of_In|].
    exists src, dst. by split_and!. }
  split.
  - intros (src & dst & Hgs & Hgd & Hne & Hnear & Hsrc & Hdst).
    destruct Hsome as (m & Hm & Hin).
    { intros Hnil.
      pose proof (relocation_legal state (my_piece p) src dst Hwf Hgs Hgd Hne
                    Hnear Hsrc Hdst) as Hin.
      rewrite Hnil in Hin. by apply elem_of_nil in Hin. }
    destruct (Hlegal m Hin) as (src' & dst' & -> & Hl). by exists src', dst'.
  - intros Hno. apply Hnone.
    destruct (flat_map _ positions) as [|v vs] eqn:E; [done|].
    destruct (Hlegal v.1) as (src & dst & _ & Hl); [by left|].
    by destruct (Hno src dst).
Qed.

Lemma make_move_move_phase_witness :
  ((exists src dst, legal_relocation board_midgame black src dst) ->
   exists src dst,
     make_move (player_of black 7) board_midgame
       = Some ([dst; src], count_turn (player_of black 7)) /\
     legal_relocation board_midgame black src dst) /\
  ((forall src dst, ~ legal_relocation board_midgame black src dst) ->
   make_move (player_of black 7) board_midgame = None).
Proof.
  apply (make_move_move_phase (player_of black 7) board_midgame).
  - exact wf_board_midgame.
  - simpl. lia.
Defined.

(** ** The phase counter *)

Lemma after_turns_S n p : after_turns (S n) p = count_turn (after_turns n p).
Proof. done. Qed.

Lemma after_turns_pieces n p :
  my_piece (after_turns n p) = my_piece p /\ opp (after_turns n p) = opp p.
Proof. induction n as [|n IH]; [done|]. rewrite after_turns_S. simpl. done. Qed.

Lemma after_turns_counter c n :
  (1 <= n)%nat ->
  drop_phase_check (after_turns n (init c))
  = 2 * Z.of_nat n - (if Ascii.eqb c black then 1 else 0).
Proof.
  induction n as [|n IH]; [lia|]. intros _. rewrite after_turns_S.
  unfold count_turn at 1. simpl drop_phase_check.
  rewrite (proj1 (after_turns_pieces n (init c))). simpl my_piece.
  destruct n as [|n].
  - simpl. destruct (Ascii.eqb c black); done.
  - rewrite IH by lia.
    destruct (Ascii.eqb c black); cbn [andb]; [|lia].
    destruct (Z.eqb_spec (2 * Z.of_nat (S n) - 1 + 2) 2); lia.
Qed.

(** X8. The n-th call of make_move of a new player works with the counter
    2n - 1 when the player owns 'b' and 2n when it owns 'r': succ generates
    placements in the first four calls and relocations from the fifth on,
    for either colour. *)
Theorem drop_phase_is_four_turns c n :
  (1 <= n)%nat ->
  let p := after_turns n (init c) in
  my_piece p = c /\
  drop_phase_check p = 2 * Z.of_nat n - (if Ascii.eqb c black then 1 else 0) /\
  (drop_phase_check p < 9 <-> (n <= 4)%nat).
Proof.
  intros Hn. simpl. rewrite after_turns_counter by done.
  split_and!; [apply after_turns_pieces|done|].
  destruct (Ascii.eqb c black); lia.
Qed.

Lemma drop_phase_is_four_turns_witness :
  let p := after_turns 5 (init black) in
  my_piece p = black /\
  drop_phase_check p = 2 * Z.of_nat 5 - (if Ascii.eqb black black then 1 else 0) /\
  (drop_phase_check p < 9 <-> (5 <= 4)%nat).
Proof. apply (drop_phase_is_four_turns black 5). lia. Defined.

(** ** The window of the search *)

Lemma Qltb_lt x y : Qltb x y = true <-> (x < y)%Q.
Proof.
  unfold Qltb. rewrite Qlt_alt. destruct (x ?= y)%Q; split; congruence.
Qed.

Lemma Qltb_ge x y : Qltb x y = false <-> (y <= x)%Q.
Proof.
  rewrite <-not_true_iff_false, Qltb_lt. split; [apply Qnot_lt_le|apply Qle_not_lt].
Qed.

Lemma py_max_bounds a v : (a <= py_max a v)%Q.
Proof.
  unfold py_max. destruct (Qltb a v) eqn:E; [|lra].
  apply Qltb_lt in E. lra.
Qed.

Lemma py_min_bounds b v : (py_min b v <= b)%Q.
Proof.
  unfold py_min. destruct (Qltb v b) eqn:E; [|lra].
  apply Qltb_lt in E. lra.
Qed.

Lemma for_window {X} (alpha beta : Q) (xs : list X)
    (body : X -> Q -> flow Q Q) (s : Q) :
  (forall x s, (alpha <= s <= beta)%Q ->
     match body x s with
     | Continue s' => (alpha <= s' <= beta)%Q
     | Return r => (alpha <= r <= beta)%Q
     | Raise => True
     end) ->
  (alpha <= s <= beta)%Q ->
  forall r, finish (for_ xs body s) (fun s => s) = Some r ->
            (alpha <= r <= beta)%Q.
Proof.
  intros Hbody. revert s. induction xs as [|x xs IH]; intros s Hs r; simpl.
  - by intros [= <-].
  - specialize (Hbody x s Hs). destruct (body x s) as [s'|r'|]; simpl.
    + by apply IH.
    + by intros [= <-].
    + done.
Qed.

Lemma search_in_window p depth state alpha beta r :
  game_value p state = Some 0 -> (alpha <= beta)%Q ->
  (max_value p (S depth) state alpha beta = Some r -> (alpha <= r <= beta)%Q) /\
  (min_value p (S depth) state alpha beta = Some r -> (alpha <= r <= beta)%Q).
Proof.
  intros Hgv Hab. split; simpl; rewrite Hgv; simpl.
  - destruct (succ p state (my_piece p)) as [vs|]; simpl; [|done].
    apply for_window; [|lra]. intros [m s] a Ha.
    destruct (min_value p depth s a beta) as [v|]; simpl; [|done].
    pose proof (py_max_bounds a v).
    destruct (Qgeb (py_max a v) beta) eqn:E; [lra|].
    unfold Qgeb in E. apply negb_false_iff, Qltb_lt in E. lra.
  - destruct (succ p state (opp p)) as [vs|]; simpl; [|done].
    apply for_window; [|lra]. intros [m s] b Hb.
    destruct (max_value p depth state alpha b) as [v|]; simpl; [|done].
    pose proof (py_min_bounds b v).
    destruct (Qgeb alpha (py_min b v)) eqn:E; [lra|].
    unfold Qgeb in E. apply negb_false_iff, Qltb_lt in E. lra.
Qed.

(** X9. On a 5x5 board a node that is neither terminal nor at the horizon
    returns a value inside its window: max_value and min_value raise
    nothing and return a value between alpha and beta, whatever the
    successors score. *)
Theorem search_window p depth state alpha beta :
  wf_board state -> game_value p state = Some 0 -> (alpha <= beta)%Q ->
  (exists r, max_value p (S depth) state alpha beta = Some r /\
             (alpha <= r <= beta)%Q) /\
  (exists r, min_value p (S depth) state alpha beta = Some r /\
             (alpha <= r <= beta)%Q).
Proof.
  intros Hwf Hgv Hab.
  destruct (search_is_Some p (S depth) state alpha beta Hwf) as [[r1 H1] [r2 H2]].
  split.
  - exists r1. split; [exact H1|].
    exact (proj1 (search_in_window p depth state alpha beta r1 Hgv Hab) H1).
  - exists r2. split; [exact H2|].
    exact (proj2 (search_in_window p depth state alpha beta r2 Hgv Hab) H2).
Qed.

Lemma search_window_witness :
  (exists r, max_value (player_of black 7) 2 board_b_to_win (-1000) 1000 = Some r /\
             (-1000 <= r <= 1000)%Q) /\
  (exists r, min_value (player_of black 7) 2 board_b_to_win (-1000) 1000 = Some r /\
             (-1000 <= r <= 1000)%Q).
Proof.
  apply (search_window (player_of black 7) 1 board_b_to_win (-1000) 1000).
  - exact wf_board_b_to_win.
  - vm_compute. reflexivity.
  - vm_compute. discriminate.
Defined.

(** ** The heuristic is zero-sum *)

Lemma cell_score_swap_player p w x :
  my_piece p <> opp p ->
  (cell_score (swap_player p) w x == - cell_score p w x)%Q.
Proof.
  intros Hne. unfold cell_score. simpl. destruct x as [x|]; [|lra].
  destruct (Ascii.eqb_spec x (opp p)) as [Ho|Ho],
           (Ascii.eqb_spec x (my_piece p)) as [Hm|Hm]; try lra.
  destruct Hne. congruence.
Qed.

Lemma weighted_sum_swap_player weight p state :
  my_piece p <> opp p ->
  (weighted_sum weight (swap_player p) state == - weighted_sum weight p state)%Q.
Proof.
  intros Hne. unfold weighted_sum.
  induction positions as [|rc l IH]; simpl; [lra|].
  rewrite IH, cell_score_swap_player by done. lra.
Qed.

(** X11. What heuristic_game_value gives one player it takes from the other:
    on a 5x5 board, with my_piece and the opponent's piece exchanged, the
    score is the opposite. *)
Theorem heuristic_game_value_zero_sum p state :
  wf_board state -> my_piece p <> opp p ->
  exists v w,
    heuristic_game_value p state = Some v /\
    heuristic_game_value (swap_player p) state = Some w /\
    (w == - v)%Q.
Proof.
  intros Hwf Hne. destruct (Z.lt_ge_cases (drop_phase_check p) 3) as [Hd|Hd].
  - destruct (heuristic_game_value_active p state Hwf Hd) as (v & Hv & Ev).
    destruct (heuristic_game_value_active (swap_player p) state Hwf Hd)
      as (w & Hw & Ew).
    exists v, w. split_and!; [done|done|].
    by rewrite Ew, Ev, weighted_sum_swap_player.
  - exists 0%Q, 0%Q.
    split_and!; [by apply heuristic_game_value_inactive..|lra].
Qed.

Lemma heuristic_game_value_zero_sum_witness :
  exists v w,
    heuristic_game_value (player_of black 1) board_b_to_win = Some v /\
    heuristic_game_value (swap_player (player_of black 1)) board_b_to_win = Some w /\
    (w == - v)%Q.
Proof.
  apply (heuristic_game_value_zero_sum (player_of black 1) board_b_to_win).
  - exact wf_board_b_to_win.
  - discriminate.
Defined.

(** ** game_value on boards that are not 5x5 *)

(** X2. game_value raises IndexError on the empty list, and on every board
    whose first row has fewer than two cells. *)
Theorem game_value_short_row p :
  game_value p [] = None /\
  forall row rest, (length row < 2)%nat -> game_value p (row :: rest) = None.
Proof.
  split; [done|]. intros row rest Hlen.
  unfold game_value, horizontal. change (range 2) with [0; 1]. cbn [for_].
  destruct row as [|x [|y row]]; [done| |simpl in Hlen; lia].
  change (0 + 1) with 1. change (1 + 1) with 2.
  unfold line4, win_if. simpl.
  by destruct (Ascii.eqb x empty).
Qed.

Lemma game_value_short_row_witness :
  game_value (player_of black 1) [] = None /\
  game_value (player_of black 1) [[black]; []] = None.
Proof.
  destruct (game_value_short_row (player_of black 1)) as [Hnil Hshort].
  split; [exact Hnil|]. apply Hshort. simpl. lia.
Defined.

(** ** place_piece and opponent_move on board values *)

(** Two 5x5 boards with the same cells are the same board. *)
Lemma board_ext (s1 s2 : board) :
  wf_board s1 -> wf_board s2 ->
  (forall row col, in_grid (row, col) -> cell_at s1 row col = cell_at s2 row col) ->
  s1 = s2.
Proof.
  intros [Hl1 Hr1] [Hl2 Hr2] Hcells.
  apply (list_eq_same_length _ _ 5); [done..|].
  intros i r1 r2 Hi H1 H2.
  assert (length r1 = 5%nat) as Hlen1.
  { apply (proj1 (Forall_forall _ _) Hr1). by eapply list_elem_of_lookup_2. }
  assert (length r2 = 5%nat) as Hlen2.
  { apply (proj1 (Forall_forall _ _) Hr2). by eapply list_elem_of_lookup_2. }
  apply (list_eq_same_length _ _ 5); [done..|].
  intros j x y Hj Hx Hy.
  specialize (Hcells (Z.of_nat i) (Z.of_nat j)).
  rewrite (cell_at_row s1 i r1), (cell_at_row s2 i r2) in Hcells by done.
  rewrite !py_index_nonneg, !Nat2Z.id, Hx, Hy in Hcells by lia.
  assert (Some x = Some y) as [= ->]; [|done].
  apply Hcells. split; simpl; lia.
Qed.

(** Two writes to different cells, in either order. *)
Lemma set_cell_swap (state s1 s2 s12 s21 : board) rc1 rc2 x y :
  wf_board state -> in_grid rc1 -> in_grid rc2 -> rc1 <> rc2 ->
  set_cell state rc1.1 rc1.2 x = Some s1 -> set_cell s1 rc2.1 rc2.2 y = Some s12 ->
  set_cell state rc2.1 rc2.2 y = Some s2 -> set_cell s2 rc1.1 rc1.2 x = Some s21 ->
  s12 = s21.
Proof.
  intros Hwf [Hr1 Hc1] [Hr2 Hc2] Hne H1 H12 H2 H21.
  assert (wf_board s1) by (eapply set_cell_wf; [..|exact Hwf|done]; lia).
  assert (wf_board s2) by (eapply set_cell_wf; [..|exact Hwf|done]; lia).
  apply board_ext.
  - eapply (set_cell_wf s1 s12); [..|done|exact H12]; lia.
  - eapply (set_cell_wf s2 s21); [..|done|exact H21]; lia.
  - intros row col [Hrow Hcol]. simpl in *.
    rewrite (cell_at_set_cell s1 s12 rc2.1 rc2.2 y),
      (cell_at_set_cell state s1 rc1.1 rc1.2 x),
      (cell_at_set_cell s2 s21 rc1.1 rc1.2 x),
      (cell_at_set_cell state s2 rc2.1 rc2.2 y) by (done || lia).
    destruct rc1 as [r1 c1], rc2 as [r2 c2]. simpl.
    repeat case_decide; simplify_eq; done.
Qed.

Section applying_moves.
Variables (state : board) (turn_piece : cell).
Hypothesis Hwf : wf_board state.

Lemma place_piece_placement rc v :
  in_grid rc -> v ∈ placement state turn_piece rc ->
  place_piece state v.1 turn_piece = Some v.2.
Proof.
  intros Hrc (Hm & _ & Hset)%placement_inv; [|done].
  unfold place_piece. rewrite Hm. by destruct rc.
Qed.

Lemma place_piece_relocation rc v :
  in_grid rc -> v ∈ relocation state turn_piece rc ->
  place_piece state v.1 turn_piece = Some v.2.
Proof.
  intros Hrc (_ & ij & _ & Hv)%relocation_inv.
  apply slide_inv in Hv as (Hne & Hdst & Hm & _ & s1 & Hset1 & Hset2).
  unfold place_piece. rewrite Hm. simpl.
  destruct (set_cell_is_Some state rc.1 rc.2 empty Hwf) as [s2 Hs2];
    [by destruct rc|].
  rewrite Hs2. simpl.
  assert (wf_board s2) as Hwf2.
  { destruct Hrc. eapply set_cell_wf; [..|exact Hwf|done]; lia. }
  destruct (set_cell_is_Some s2 (rc.1 + ij.1) (rc.2 + ij.2) turn_piece Hwf2 Hdst)
    as [s21 Hs21].
  rewrite Hs21. f_equal. symmetry.
  eapply (set_cell_swap state s1 s2 v.2 s21 (rc.1 + ij.1, rc.2 + ij.2) rc);
    try done.
  intros Heq. apply Hne. destruct rc as [r c], ij as [i j]. simpl in *.
  simplify_eq. f_equal; lia.
Qed.
End applying_moves.

Lemma place_piece_of_succ p state turn_piece vs v :
  wf_board state -> succ p state turn_piece = Some vs -> v ∈ vs ->
  place_piece state v.1 turn_piece = Some v.2.
Proof.
  intros Hwf Hsucc Hv.
  destruct (Z.lt_ge_cases (drop_phase_check p) 9) as [Hd|Hd].
  - rewrite (succ_drop_phase_eq _ _ _ Hwf Hd) in Hsucc. simplify_eq.
    apply list_elem_of_In, in_flat_map in Hv as (rc & Hrc & Hv).
    apply (place_piece_placement state turn_piece rc);
      [by apply elem_of_positions, list_elem_of_In|by apply list_elem_of_In].
  - rewrite (succ_move_phase_eq _ _ _ Hwf Hd) in Hsucc. simplify_eq.
    apply list_elem_of_In, in_flat_map in Hv as (rc & Hrc & Hv).
    apply (place_piece_relocation state turn_piece Hwf rc);
      [by apply elem_of_positions, list_elem_of_In|by apply list_elem_of_In].
Qed.

(** X10. A move that succ returned, applied to the input with place_piece,
    gives the board that succ paired with the move, in either phase. *)
Theorem place_piece_replays_succ p state turn_piece vs :
  wf_board state -> succ p state turn_piece = Some vs ->
  Forall (fun v => place_piece state v.1 turn_piece = Some v.2) vs.
Proof.
  intros Hwf Hsucc. apply Forall_forall. intros v Hv.
  by eapply place_piece_of_succ.
Qed.

Lemma place_piece_replays_succ_witness :
  exists vs,
    succ (player_of black 9) board_midgame black = Some vs /\
    Forall (fun v => place_piece board_midgame v.1 black = Some v.2) vs.
Proof.
  eexists. split; [vm_compute; reflexivity|].
  apply (place_piece_replays_succ (player_of black 9) board_midgame black).
  - exact wf_board_midgame.
  - vm_compute. reflexivity.
Defined.

Section opponent_moves.
Variables (p : Teeko2Player) (state : board).
Hypothesis Hwf : wf_board state.

Lemma opponent_move_placement rc state' :
  cell_at state rc.1 rc.2 = Some empty ->
  place_piece state [rc] (opp p) = Some state' ->
  opponent_move p state [rc] = inr state'.
Proof.
  intros Hcell Hplace. unfold opponent_move. simpl.
  rewrite Hcell. simpl. by rewrite Hplace.
Qed.

Lemma near_test (src dst : Z * Z) :
  (1 <? Z.abs (src.1 - dst.1)) || (1 <? Z.abs (src.2 - dst.2))
  = (1 <? chebyshev dst src).
Proof.
  unfold chebyshev.
  destruct (Z.ltb_spec 1 (Z.abs (src.1 - dst.1))),
           (Z.ltb_spec 1 (Z.abs (src.2 - dst.2))),
           (Z.ltb_spec 1 (Z.max (Z.abs (dst.1 - src.1)) (Z.abs (dst.2 - src.2))));
    simpl; lia.
Qed.

(** What opponent_move answers to a move of two tuples. *)
Lemma opponent_move_two src dst :
  opponent_move p state [dst; src] =
  match cell_at state src.1 src.2 with
  | None => inl IndexError
  | Some x =>
      if negb (Ascii.eqb x (opp p)) then inl NoPieceThere
      else if 1 <? chebyshev dst src then inl NotAdjacent
      else match cell_at state dst.1 dst.2 with
           | None => inl IndexError
           | Some y =>
               if negb (Ascii.eqb y empty) then inl IllegalMove
               else match place_piece state [dst; src] (opp p) with
                    | Some state' => inr state'
                    | None => inl IndexError
                    end
           end
  end.
Proof.
  unfold opponent_move. simpl.
  destruct (cell_at state src.1 src.2) as [x|]; simpl; [|done].
  destruct (negb (Ascii.eqb x (opp p))); [done|].
  rewrite near_test. destruct (1 <? chebyshev dst src); [done|]. simpl.
  destruct (cell_at state dst.1 dst.2) as [y|]; simpl; [|done].
  destruct (negb (Ascii.eqb y empty)); [done|].
  by destruct (place_piece state [dst; src] (opp p)).
Qed.

Lemma opponent_move_legal src dst :
  legal_relocation state (opp p) src dst ->
  exists state',
    opponent_move p state [dst; src] = inr state' /\
    ([dst; src], state') ∈ relocation state (opp p) src.
Proof.
  intros (Hsrc & Hdst & Hne & Hnear & Hpiece & Hempty).
  destruct (slide_legal state (opp p) src dst) as [state' Hslide]; try done.
  assert (([dst; src], state') ∈ relocation state (opp p) src) as Hin.
  { unfold relocation. rewrite Hpiece, Ascii.eqb_refl.
    apply list_elem_of_In, in_flat_map.
    exists (dst.1 - src.1, dst.2 - src.2). split.
    - apply list_elem_of_In, elem_of_offsets.
      unfold chebyshev in Hnear. simpl. lia.
    - rewrite Hslide. by left. }
  exists state'. split; [|done].
  rewrite opponent_move_two, Hpiece, Ascii.eqb_refl, Hempty, Ascii.eqb_refl.
  simpl. rewrite (proj2 (Z.ltb_ge _ _) Hnear).
  pose proof (place_piece_relocation state (opp p) Hwf src ([dst; src], state')
                Hsrc Hin) as Hplace.
  simpl in Hplace. by rewrite Hplace.
Qed.
End opponent_moves.

(** X12. opponent_move accepts every move that succ generates for the
    opponent's piece, in either phase, and gives the board that succ paired
    with the move. *)
Theorem opponent_move_accepts_succ p state vs :
  wf_board state -> succ p state (opp p) = Some vs ->
  Forall (fun v => opponent_move p state v.1 = inr v.2) vs.
Proof.
  intros Hwf Hsucc. apply Forall_forall. intros v Hv.
  pose proof (place_piece_of_succ p state (opp p) vs v Hwf Hsucc Hv) as Hplace.
  simpl in Hplace.
  destruct (Z.lt_ge_cases (drop_phase_check p) 9) as [Hd|Hd].
  - rewrite (succ_drop_phase_eq _ _ _ Hwf Hd) in Hsucc. simplify_eq.
    apply list_elem_of_In, in_flat_map in Hv as (rc & Hrc & Hv%list_elem_of_In).
    apply placement_inv in Hv as (Hm & Hcell & _);
      [|by apply elem_of_positions, list_elem_of_In].
    rewrite Hm in *. by apply opponent_move_placement.
  - rewrite (succ_move_phase_eq _ _ _ Hwf Hd) in Hsucc. simplify_eq.
    apply list_elem_of_In, in_flat_map in Hv as (rc & Hrc & Hv).
    destruct (relocation_relocates state (opp p) Hwf rc v)
      as ((src & dst & Hm & ? & ? & ? & ? & ? & ? & _) & _);
      [by apply elem_of_positions, list_elem_of_In|by apply list_elem_of_In|].
    destruct (opponent_move_legal p state Hwf src dst) as (state' & Hmove & Hin).
    { by split_and!. }
    rewrite Hm in *. rewrite Hmove. f_equal.
    rewrite opponent_move_two in Hmove.
    repeat case_match; simplify_eq. done.
Qed.

Lemma opponent_move_accepts_succ_witness :
  exists vs,
    succ (player_of black 9) board_midgame red = Some vs /\
    Forall (fun v => opponent_move (player_of black 9) board_midgame v.1 = inr v.2)
           vs.
Proof.
  eexists. split; [vm_compute; reflexivity|].
  apply (opponent_move_accepts_succ (player_of black 9) board_midgame).
  - exact wf_board_midgame.
  - vm_compute. reflexivity.
Defined.

(** X13. For a move (destination, source) between two cells of the grid of a
    5x5 board, opponent_move accepts exactly the legal relocations of the
    opponent's piece and then moves the piece; it raises "You don't have a
    piece there!" when the source does not hold the opponent's piece, else
    "Illegal move: Can only move to an adjacent space" when the cells are
    more than one step apart, else "Illegal move detected" when the
    destination is not empty; it never raises IndexError. *)
Theorem opponent_move_relocation p state src dst :
  wf_board state -> opp p <> empty -> in_grid src -> in_grid dst ->
  match opponent_move p state [dst; src] with
  | inr state' =>
      legal_relocation state (opp p) src dst /\
      relocates state (opp p) [dst; src] state' /\
      frames state (opp p) [dst; src] state'
  | inl NoPieceThere => cell_at state src.1 src.2 <> Some (opp p)
  | inl NotAdjacent =>
      cell_at state src.1 src.2 = Some (opp p) /\ 1 < chebyshev dst src
  | inl IllegalMove =>
      cell_at state src.1 src.2 = Some (opp p) /\ chebyshev dst src <= 1 /\
      cell_at state dst.1 dst.2 <> Some empty
  | inl IndexError => False
  end.
Proof.
  intros Hwf Hopp Hsrc Hdst.
  destruct (wf_board_cell_at state src.1 src.2 Hwf) as [x Hx]; [apply Hsrc..|].
  destruct (wf_board_cell_at state dst.1 dst.2 Hwf) as [y Hy]; [apply Hdst..|].
  destruct (Ascii.eqb_spec x (opp p)) as [->|Hxo].
  - destruct (Z.ltb_spec 1 (chebyshev dst src)) as [Hfar|Hnear].
    + rewrite opponent_move_two, Hx, Ascii.eqb_refl. simpl.
      by rewrite (proj2 (Z.ltb_lt _ _) Hfar).
    + destruct (Ascii.eqb_spec y empty) as [->|Hye].
      * assert (legal_relocation state (opp p) src dst) as Hlegal.
        { split_and!; try done. intros ->. congruence. }
        destruct (opponent_move_legal p state Hwf src dst Hlegal)
          as (state' & -> & Hin).
        split; [done|].
        by apply (relocation_relocates state (opp p) Hwf src ([dst; src], state')).
      * rewrite opponent_move_two, Hx, Ascii.eqb_refl, Hy. simpl.
        rewrite (proj2 (Z.ltb_ge _ _) Hnear).
        rewrite (proj2 (Ascii.eqb_neq _ _) Hye). simpl.
        split_and!; [done|done|congruence].
  - rewrite opponent_move_two, Hx.
    rewrite (proj2 (Ascii.eqb_neq _ _) Hxo). simpl. congruence.
Qed.

Lemma opponent_move_relocation_witness :
  match opponent_move (player_of black 9) board_midgame [(0, 3); (0, 4)] with
  | inr state' =>
      legal_relocation board_midgame red (0, 4) (0, 3) /\
      relocates board_midgame red [(0, 3); (0, 4)] state' /\
      frames board_midgame red [(0, 3); (0, 4)] state'
  | inl NoPieceThere => cell_at board_midgame 0 4 <> Some red
  | inl NotAdjacent => cell_at board_midgame 0 4 = Some red /\ 1 < chebyshev (0, 3) (0, 4)
  | inl IllegalMove =>
      cell_at board_midgame 0 4 = Some red /\ chebyshev (0, 3) (0, 4) <= 1 /\
      cell_at board_midgame 0 3 <> Some empty
  | inl IndexError => False
  end.
Proof.
  apply (opponent_move_relocation (player_of black 9) board_midgame (0, 4) (0, 3)).
  - exact wf_board_midgame.
  - discriminate.
  - split; simpl; lia.
  - split; simpl; lia.
Defined.

(** ** A source given by a negative index *)

Lemma py_index_last {A} (l : list A) :
  length l = 5%nat -> py_index l (-1) = py_index l 4.
Proof. intros Hl. unfold py_index. by rewrite Hl. Qed.

Lemma py_setitem_last {A} (l : list A) x :
  length l = 5%nat -> py_setitem l (-1) x = py_setitem l 4 x.
Proof. intros Hl. unfold py_setitem. by rewrite Hl. Qed.

Lemma cell_at_last_row (state : board) col :
  wf_board state -> cell_at state (-1) col = cell_at state 4 col.
Proof. intros [Hl _]. unfold cell_at. by rewrite py_index_last. Qed.

Lemma set_cell_last_row (state : board) col x :
  wf_board state -> set_cell state (-1) col x = set_cell state 4 col x.
Proof.
  intros [Hl _]. unfold set_cell. rewrite py_index_last by done.
  destruct (py_index state 4) as [r|]; simpl; [|done].
  destruct (py_setitem r col x) as [r'|]; simpl; [|done].
  by apply py_setitem_last.
Qed.

(** X14. opponent_move does not reject a source row of -1.  Python reads it as
    the last row, and the test of adjacency compares the numbers as given:
    with the opponent's piece at (4, col) and (0, col) empty, the move
    ((0, col), (-1, col)) is accepted and carries the piece from the bottom
    row to the top row, four rows away. *)
Theorem opponent_move_wraps p state col :
  wf_board state -> 0 <= col < 5 ->
  cell_at state 4 col = Some (opp p) -> cell_at state 0 col = Some empty ->
  exists state',
    opponent_move p state [(0, col); (-1, col)] = inr state' /\
    cell_at state' 4 col = Some empty /\
    cell_at state' 0 col = Some (opp p) /\
    chebyshev (0, col) (4, col) = 4.
Proof.
  intros Hwf Hcol Hsrc Hdst.
  destruct (set_cell_is_Some state 4 col empty Hwf) as [s1 Hs1];
    [split; simpl; lia|].
  assert (wf_board s1) as Hwf1 by (eapply set_cell_wf; [..|exact Hwf|done]; lia).
  destruct (set_cell_is_Some s1 0 col (opp p) Hwf1) as [s2 Hs2];
    [split; simpl; lia|].
  exists s2. split_and!.
  - rewrite opponent_move_two. simpl.
    rewrite cell_at_last_row, Hsrc, Ascii.eqb_refl by done. simpl.
    assert ((1 <? chebyshev (0, col) (-1, col)) = false) as ->.
    { apply Z.ltb_ge. unfold chebyshev. simpl. lia. }
    rewrite Hdst, Ascii.eqb_refl. simpl.
    unfold place_piece. simpl.
    rewrite set_cell_last_row, Hs1 by done. simpl. by rewrite Hs2.
  - rewrite (cell_at_set_cell_ne s1 s2 0 col (opp p)) by (done || lia).
    eapply cell_at_set_cell_eq; [..|done]; lia.
  - eapply cell_at_set_cell_eq; [..|done]; lia.
  - unfold chebyshev. simpl. lia.
Qed.

Lemma opponent_move_wraps_witness :
  exists state',
    opponent_move (player_of red 9) board_midgame [(0, 0); (-1, 0)] = inr state' /\
    cell_at state' 4 0 = Some empty /\
    cell_at state' 0 0 = Some (opp (player_of red 9)) /\
    chebyshev (0, 0) (4, 0) = 4.
Proof.
  apply (opponent_move_wraps (player_of red 9) board_midgame 0).
  - exact wf_board_midgame.
  - lia.
  - reflexivity.
  - reflexivity.
Defined.

(** ** place_piece and opponent_move in the store *)

(** Where an index reads, the same index writes, at one position of the
    list and of every list of the same length. *)
Lemma py_index_resolve {A} (l : list A) i x :
  py_index l i = Some x ->
  exists n, l !! n = Some x /\
    forall B (k : list B), length k = length l ->
      py_index k i = k !! n /\
      forall y, py_setitem k i y = Some (<[n := y]> k).
Proof.
  unfold py_index, py_setitem.
  destruct (Z.leb_spec 0 i) as [Hi|Hi].
  - intros Hx. exists (Z.to_nat i). split; [done|].
    intros B k Hk. rewrite Hk. split; [done|]. intros y.
    apply lookup_lt_Some in Hx.
    by rewrite (proj2 (Z.ltb_lt i (Z.of_nat (length l)))) by lia.
  - destruct (Z.leb_spec (- Z.of_nat (length l)) i) as [Hi'|Hi']; [|done].
    intros Hx. exists (Z.to_nat (Z.of_nat (length l) + i)). split; [done|].
    intros B k Hk. rewrite Hk.
    rewrite (proj2 (Z.leb_le _ _) Hi'). done.
Qed.

Lemma py_index_is_Some_iff {A} (l : list A) i :
  is_Some (py_index l i) <-> - Z.of_nat (length l) <= i < Z.of_nat (length l).
Proof.
  unfold py_index.
  destruct (Z.leb_spec 0 i); [rewrite lookup_lt_is_Some; lia|].
  destruct (Z.leb_spec (- Z.of_nat (length l)) i);
    [rewrite lookup_lt_is_Some; lia|].
  split; [by intros [? ?]|lia].
Qed.

Section store_moves.
Implicit Types (h : gmap Store.loc Store.obj) (l : Store.loc).

(** A cell that reads can be written; the other cells read as before,
    whatever the store holds. *)
Lemma store_set_cell_of_read h l row col x y :
  Store.cell_at h l row col = Some x ->
  exists h',
    Store.set_cell h l row col y = Some h' /\
    forall row' col', is_Some (Store.cell_at h l row' col') ->
                      is_Some (Store.cell_at h' l row' col').
Proof.
  unfold Store.cell_at, Store.set_cell.
  destruct (Store.rows_of h l) as [rows|] eqn:Hrows; simpl; [|done].
  destruct (py_index rows row) as [r|] eqn:Hr; simpl; [|done].
  destruct (Store.cells_of h r) as [cells|] eqn:Hcells; simpl; [|done].
  intros Hx. destruct (py_index_resolve cells col x Hx) as (n & Hn & Hres).
  destruct (Hres _ cells eq_refl) as [_ Hset]. rewrite Hset. simpl.
  eexists. split; [done|]. intros row' col'.
  assert (l <> r) as Hlr.
  { intros ->. apply rows_of_Some in Hrows. apply cells_of_Some in Hcells.
    congruence. }
  assert (Store.rows_of (<[r := Store.Row (<[n := y]> cells)]> h) l = Some rows)
    as ->.
  { apply rows_of_Some. rewrite lookup_insert_ne by done. by apply rows_of_Some. }
  simpl. destruct (py_index rows row') as [r'|]; simpl; [|done].
  destruct (decide (r' = r)) as [->|Hne].
  - rewrite Hcells. simpl.
    assert (Store.cells_of (<[r := Store.Row (<[n := y]> cells)]> h) r
            = Some (<[n := y]> cells)) as ->.
    { apply cells_of_Some. by rewrite lookup_insert_eq. }
    simpl. rewrite !py_index_is_Some_iff. by rewrite length_insert.
  - assert (Store.cells_of (<[r := Store.Row (<[n := y]> cells)]> h) r'
            = Store.cells_of h r') as ->; [|done].
    unfold Store.cells_of. by rewrite lookup_insert_ne.
Qed.
End store_moves.

Section board_moves.
Implicit Types (h : gmap Store.loc Store.obj) (l : Store.loc).

Lemma board_place_piece_reads h l (m : move) x :
  ((1 <? Z.of_nat (length m)) = true ->
   exists src, py_index m 1 = Some src /\
               is_Some (Store.cell_at h l src.1 src.2)) ->
  (exists dst, py_index m 0 = Some dst /\
               is_Some (Store.cell_at h l dst.1 dst.2)) ->
  exists h', Board.place_piece h l m x = (h', inr tt).
Proof.
  intros Hsrc (dst & Hdst & Hread). unfold Board.place_piece.
  destruct (1 <? Z.of_nat (length m)).
  - destruct Hsrc as (src & -> & [y Hy]); [done|]. simpl.
    destruct (store_set_cell_of_read h l src.1 src.2 y empty Hy)
      as (h1 & -> & Hkeep).
    simpl. rewrite Hdst. simpl.
    destruct (Hkeep _ _ Hread) as [z Hz].
    destruct (store_set_cell_of_read h1 l dst.1 dst.2 z x Hz) as (h2 & -> & _).
    simpl. eauto.
  - rewrite Hdst. simpl. destruct Hread as [z Hz].
    destruct (store_set_cell_of_read h l dst.1 dst.2 z x Hz) as (h2 & -> & _).
    simpl. eauto.
Qed.

(** X15. opponent_move validates before it writes: when it raises, whatever
    the exception, the store is as it was before the call; the board is never
    left with half a move applied. *)
Theorem board_opponent_move_atomic p h l m h' e :
  Board.opponent_move p h l m = (h', inl e) -> h' = h.
Proof.
  unfold Board.opponent_move.
  destruct (1 <? Z.of_nat (length m)) eqn:Hlen.
  - unfold indexed_value, indexed.
    destruct (py_index m 1) as [src|] eqn:Hsrc; [|by intros [= <-]].
    destruct (Store.cell_at h l src.1 src.2) as [x|] eqn:Hx; [|by intros [= <-]].
    destruct (negb (Ascii.eqb x (opp p))); [by intros [= <-]|].
    destruct (py_index m 0) as [dst|] eqn:Hdst; [|by intros [= <-]].
    destruct (_ || _); [by intros [= <-]|]. unfold Board.indexed.
    destruct (Store.cell_at h l dst.1 dst.2) as [y|] eqn:Hy; [|by intros [= <-]].
    destruct (negb (Ascii.eqb y empty)); [by intros [= <-]|].
    destruct (board_place_piece_reads h l m (opp p)) as [h2 ->]; [|by eauto|done].
    intros _. eauto.
  - unfold Board.indexed.
    destruct (py_index m 0) as [dst|] eqn:Hdst; [|by intros [= <-]].
    destruct (Store.cell_at h l dst.1 dst.2) as [y|] eqn:Hy; [|by intros [= <-]].
    destruct (negb (Ascii.eqb y empty)); [by intros [= <-]|].
    destruct (board_place_piece_reads h l m (opp p)) as [h2 ->]; [|by eauto|done].
    by rewrite Hlen.
Qed.

Lemma store_set_cell_board h l state state' row col x :
  Store.board_at h l state ->
  set_cell state row col x = Some state' ->
  exists h' rows,
    Store.set_cell h l row col x = Some h' /\
    Store.board_at h' l state' /\
    Store.rows_of h l = Some rows /\ Store.rows_of h' l = Some rows /\
    forall k, k ∉ rows -> h' !! k = h !! k.
Proof.
  intros (rows & Hrows & Hnd & Hcells%mapM_Some) Hset.
  unfold set_cell in Hset.
  destruct (py_index state row) as [cells|] eqn:Hrow; simpl in Hset; [|done].
  destruct (py_setitem cells col x) as [cells'|] eqn:Hcol; simpl in Hset; [|done].
  destruct (py_index_resolve state row cells Hrow) as (n & Hn & Hres).
  destruct (Hres _ state eq_refl) as [_ Hset'].
  rewrite Hset' in Hset. simplify_eq.
  destruct (Hres _ rows (Forall2_length _ _ _ Hcells)) as [Hrow' _].
  destruct (Forall2_lookup_r _ _ _ _ _ Hcells Hn) as (r & Hr & Hrc).
  unfold Store.set_cell. rewrite Hrows. simpl. rewrite Hrow', Hr. simpl.
  rewrite Hrc. simpl. rewrite Hcol. simpl.
  assert (l <> r) as Hlr.
  { intros ->. apply rows_of_Some in Hrows. apply cells_of_Some in Hrc.
    congruence. }
  assert (Store.rows_of (<[r := Store.Row cells']> h) l = Some rows) as Hrows'.
  { apply rows_of_Some. rewrite lookup_insert_ne by done. by apply rows_of_Some. }
  eexists _, rows. split_and!; [done| |done|done|].
  - exists rows. split_and!; [done..|].
    apply mapM_Some, Forall2_same_length_lookup.
    split; [rewrite length_insert; by eapply Forall2_length|].
    intros i r0 cells0 Hr0 Hcells0.
    destruct (decide (i = n)) as [->|Hi].
    + rewrite list_lookup_insert_eq in Hcells0 by by eapply lookup_lt_Some.
      simplify_eq. apply cells_of_Some. by rewrite lookup_insert_eq.
    + rewrite list_lookup_insert_ne in Hcells0 by done.
      assert (r0 <> r) as Hne.
      { intros ->. apply Hi. by eapply NoDup_lookup. }
      apply cells_of_Some. rewrite lookup_insert_ne by done.
      apply cells_of_Some.
      exact (Forall2_lookup_lr _ _ _ _ _ _ Hcells Hr0 Hcells0).
  - intros k Hk. apply lookup_insert_ne. intros ->. apply Hk.
    by eapply list_elem_of_lookup_2.
Qed.

Lemma board_place_piece_refines h l state state' m x :
  Store.board_at h l state ->
  place_piece state m x = Some state' ->
  exists h' rows,
    Board.place_piece h l m x = (h', inr tt) /\
    Store.board_at h' l state' /\
    Store.rows_of h l = Some rows /\
    forall k, k ∉ rows -> h' !! k = h !! k.
Proof.
  intros Hb Hplace. unfold place_piece in Hplace. unfold Board.place_piece.
  destruct (1 <? Z.of_nat (length m)).
  - destruct (py_index m 1) as [src|]; simpl in *; [|done].
    destruct (set_cell state src.1 src.2 empty) as [s1|] eqn:Hs1;
      simpl in *; [|done].
    destruct (store_set_cell_board h l state s1 _ _ _ Hb Hs1)
      as (h1 & rows & -> & Hb1 & Hrows & Hrows1 & Hframe1). simpl.
    destruct (py_index m 0) as [dst|]; simpl in *; [|done].
    destruct (store_set_cell_board h1 l s1 state' _ _ _ Hb1 Hplace)
      as (h2 & rows2 & -> & Hb2 & Hrows2 & _ & Hframe2). simpl.
    simplify_eq. exists h2, rows. split_and!; [done..|].
    intros k Hk. by rewrite Hframe2, Hframe1.
  - simpl in *.
    destruct (py_index m 0) as [dst|]; simpl in *; [|done].
    destruct (store_set_cell_board h l state state' _ _ _ Hb Hplace)
      as (h2 & rows & -> & Hb2 & Hrows & _ & Hframe). simpl.
    by exists h2, rows.
Qed.

(** X16. A move that opponent_move accepts on the board value is accepted on
    the store: the board object then holds the new value, updated in place,
    and every object other than its rows is as before. *)
Theorem board_opponent_move_refines p h l state state' m :
  Store.board_at h l state ->
  opponent_move p state m = inr state' ->
  exists h' rows,
    Board.opponent_move p h l m = (h', inr tt) /\
    Store.board_at h' l state' /\
    Store.rows_of h l = Some rows /\
    forall k, k ∉ rows -> h' !! k = h !! k.
Proof.
  intros Hb. unfold opponent_move, Board.opponent_move, indexed_value, indexed.
  assert (forall s, place_piece state m (opp p) = Some s ->
            (inr s : error + board) = inr state' ->
            exists h' rows,
              Board.place_piece h l m (opp p) = (h', inr tt) /\
              Store.board_at h' l state' /\
              Store.rows_of h l = Some rows /\
              forall k, k ∉ rows -> h' !! k = h !! k) as Hfinish.
  { intros s Hplace [= <-]. by apply (board_place_piece_refines h l state s). }
  destruct (1 <? Z.of_nat (length m)).
  - destruct (py_index m 1) as [src|]; [|done].
    rewrite (store_cell_at h l state) by done.
    destruct (cell_at state src.1 src.2) as [x|]; [|done].
    destruct (negb (Ascii.eqb x (opp p))); [done|].
    destruct (py_index m 0) as [dst|]; [|done].
    destruct (_ || _); [done|]. unfold Board.indexed.
    rewrite (store_cell_at h l state) by done.
    destruct (cell_at state dst.1 dst.2) as [y|]; [|done].
    destruct (negb (Ascii.eqb y empty)); [done|].
    destruct (place_piece state m (opp p)) as [s|] eqn:Hplace; [|done].
    by apply Hfinish.
  - unfold Board.indexed.
    destruct (py_index m 0) as [dst|]; [|done].
    rewrite (store_cell_at h l state) by done.
    destruct (cell_at state dst.1 dst.2) as [y|]; [|done].
    destruct (negb (Ascii.eqb y empty)); [done|].
    destruct (place_piece state m (opp p)) as [s|] eqn:Hplace; [|done].
    by apply Hfinish.
Qed.

Lemma board_opponent_move_refines_witness :
  exists state',
    opponent_move (player_of black 9) board_midgame [(0, 3); (0, 4)] = inr state' /\
    exists h' rows,
      Board.opponent_move (player_of black 9) store_midgame.1 store_midgame.2
        [(0, 3); (0, 4)] = (h', inr tt) /\
      Store.board_at h' store_midgame.2 state' /\
      Store.rows_of store_midgame.1 store_midgame.2 = Some rows /\
      forall k, k ∉ rows -> h' !! k = store_midgame.1 !! k.
Proof.
  eexists. split; [vm_compute; reflexivity|].
  apply (board_opponent_move_refines (player_of black 9) store_midgame.1
           store_midgame.2 board_midgame).
  - exact board_at_store_midgame.
  - vm_compute. reflexivity.
Defined.

Lemma board_opponent_move_atomic_witness :
  exists h',
    Board.opponent_move (player_of black 9) store_midgame.1 store_midgame.2
      [(0, 0); (4, 0)] = (h', inl NoPieceThere) /\
    h' = store_midgame.1.
Proof.
  eexists. split; [vm_compute; reflexivity|].
  apply (board_opponent_move_atomic (player_of black 9) store_midgame.1
           store_midgame.2 [(0, 0); (4, 0)] _ NoPieceThere).
  vm_compute. reflexivity.
Defined.
End board_moves.

(** ** The successors are independent copies *)

Section succ_simulation.
Variables (p : Teeko2Player) (h0 : gmap Store.loc Store.obj) (l : Store.loc)
          (state : board) (turn_piece : cell).
Variable Rel : list (move * board) ->
               gmap Store.loc Store.obj * list (move * Store.loc) -> Prop.
Hypothesis Hinit : Rel [] (h0, []).
Hypothesis Hboard : forall vs hs, Rel vs hs -> Store.board_at hs.1 l state.
Hypothesis Hnew : forall h es vs m state' (writes : list (Z * Z * cell)),
  Rel vs (h, es) ->
  Forall (fun w => 0 <= w.1.1 /\ 0 <= w.1.2) writes ->
  foldl (fun s w => s ≫= fun s => set_cell s w.1.1 w.1.2 w.2)
        (Some state) writes = Some state' ->
  exists h1 l1 h',
    Store.deepcopy h l = Some (h1, l1) /\
    foldl (fun s w => s ≫= fun s => Store.set_cell s l1 w.1.1 w.1.2 w.2)
          (Some h1) writes = Some h' /\
    Rel (vs ++ [(m, state')]) (h', es ++ [(m, l1)]).

(** The loops of succ in the store follow those on board values and keep
    every relation that a new successor keeps. *)
Lemma store_succ_keeps vs :
  succ p state turn_piece = Some vs ->
  exists h' es, Store.succ p h0 l turn_piece = Some (h', es) /\ Rel vs (h', es).
Proof.
  unfold succ, Store.succ. destruct (drop_phase_check p <? 9).
  - match goal with
    | |- finish (for_ _ ?b1 _) _ = _ -> exists _ _, finish (for_ _ ?b2 _) _ = _ /\ _ =>
        pose proof (for_simulates Rel (range 5) b1 b2) as Hsim
    end.
    specialize (Hsim) with (2 := Hinit).
    match type of Hsim with ?P -> _ => assert P as Hbody end.
    { intros row vs1 hs1 Hrow%elem_of_range Hrel1.
      apply for_simulates; [|done].
      intros col vs2 [h2 es2] Hcol%elem_of_range Hrel2.
      rewrite (store_cell_at h2 l state) by apply (Hboard _ _ Hrel2).
      destruct (cell_at state row col) as [x|]; simpl; [|done].
      destruct (Ascii.eqb x empty); [|by eexists].
      unfold deepcopy.
      destruct (set_cell state row col turn_piece) as [state'|] eqn:Hset;
        simpl; [|done].
      destruct (Hnew h2 es2 vs2 [(row, col)] state' [(row, col, turn_piece)] Hrel2)
        as (h3 & l3 & h4 & -> & Hw & Hrel4).
      { repeat constructor; simpl; lia. }
      { simpl. by rewrite Hset. }
      simpl in *. rewrite Hw. simpl. by eexists. }
    specialize (Hsim Hbody). clear Hbody.
    destruct (for_ (range 5) _ []) as [vs'| |]; simpl in *; [|done..].
    destruct Hsim as ([h' es] & -> & Hrel). intros [= <-]. by exists h', es.
  - match goal with
    | |- finish (for_ _ ?b1 _) _ = _ -> exists _ _, finish (for_ _ ?b2 _) _ = _ /\ _ =>
        pose proof (for_simulates Rel (range 5) b1 b2) as Hsim
    end.
    specialize (Hsim) with (2 := Hinit).
    match type of Hsim with ?P -> _ => assert P as Hbody end.
    { intros row vs1 hs1 Hrow%elem_of_range Hrel1.
      apply for_simulates; [|done].
      intros col vs2 [h2 es2] Hcol%elem_of_range Hrel2.
      rewrite (store_cell_at h2 l state) by apply (Hboard _ _ Hrel2).
      destruct (cell_at state row col) as [x|]; cbn [try Store.simulates]; [|done].
      destruct (Ascii.eqb x turn_piece); [|by eexists].
      apply for_simulates; [|done].
      intros i vs3 hs3 _ Hrel3.
      apply for_simulates; [|done].
      intros j vs4 [h4 es4] _ Hrel4.
      destruct (negb (i =? 0) || negb (j =? 0)); [|by eexists].
      destruct (in_range (row + i) 5) eqn:Hi; [|by eexists].
      destruct (in_range (col + j) 5) eqn:Hj; [|by eexists].
      rewrite (store_cell_at h4 l state) by apply (Hboard _ _ Hrel4).
      destruct (cell_at state (row + i) (col + j)) as [y|];
        cbn [try Store.simulates]; [|done].
      destruct (Ascii.eqb y empty); [|by eexists].
      unfold deepcopy.
      destruct (set_cell state (row + i) (col + j) turn_piece)
        as [state1|] eqn:Hset1; simpl; [|done].
      destruct (set_cell state1 row col empty) as [state2|] eqn:Hset2;
        simpl; [|done].
      destruct (Hnew h4 es4 vs4 [(row + i, col + j); (row, col)] state2
                  [(row + i, col + j, turn_piece); (row, col, empty)] Hrel4)
        as (h5 & l5 & h6 & -> & Hw & Hrel6).
      { unfold in_range in *. repeat constructor; simpl; lia. }
      { simpl. rewrite Hset1. simpl. by rewrite Hset2. }
      simpl in *.
      destruct (Store.set_cell h5 l5 (row + i) (col + j) turn_piece)
        as [h5'|]; simpl in *; [|done].
      rewrite Hw. simpl. by eexists. }
    specialize (Hsim Hbody). clear Hbody.
    destruct (for_ (range 5) _ []) as [vs'| |]; simpl in *; [|done..].
    destruct Hsim as ([h' es] & -> & Hrel). intros [= <-]. by exists h', es.
Qed.
End succ_simulation.

Section succ_independence.
Implicit Types (h : gmap Store.loc Store.obj) (l r : Store.loc) (state : board).

Lemma board_at_rows h l state :
  Store.board_at h l state ->
  exists rows, Store.rows_of h l = Some rows /\
               forall r, r ∈ rows -> is_Some (Store.cells_of h r).
Proof.
  intros (rows & Hrows & _ & Hcells%mapM_Some). exists rows. split; [done|].
  intros r [i Hi]%list_elem_of_lookup_1.
  destruct (Forall2_lookup_l _ _ _ _ _ Hcells Hi) as (c & _ & Hc). by exists c.
Qed.

Lemma disjoint_boards_mono h h' l1 l2 :
  h ⊆ h' -> is_Some (Store.rows_of h l1) -> is_Some (Store.rows_of h l2) ->
  disjoint_boards h l1 l2 -> disjoint_boards h' l1 l2.
Proof.
  intros Hsub [rows1 H1] [rows2 H2] [Hne Hd]. split; [done|].
  intros rows1' rows2' r H1' H2'.
  rewrite (rows_of_mono _ _ _ _ Hsub H1) in H1'.
  rewrite (rows_of_mono _ _ _ _ Hsub H2) in H2'. simplify_eq. by eapply Hd.
Qed.

Lemma disjoint_boards_sym h l1 l2 :
  disjoint_boards h l1 l2 -> disjoint_boards h l2 l1.
Proof.
  intros [Hne Hd]. split; [done|]. intros rows1 rows2 r H1 H2 Hr1 Hr2.
  by eapply Hd.
Qed.

(** A board allocated after [h] shares nothing with a board of [h]. *)
Lemma apart_disjoint h h' l l1 state :
  h ⊆ h' -> Store.board_at h l state -> Store.apart h h' l1 ->
  disjoint_boards h' l l1.
Proof.
  intros Hsub (rows & Hrows & Hcells)%board_at_rows [Hl1 Hfresh]. split.
  - intros ->. apply rows_of_Some in Hrows. congruence.
  - intros rows' rows1 r Hrows' Hrows1 Hr Hr1.
    rewrite (rows_of_mono _ _ _ _ Hsub Hrows) in Hrows'. simplify_eq.
    destruct (Hcells r Hr) as [c Hc%cells_of_Some].
    specialize (Hfresh _ _ Hrows1 Hr1). congruence.
Qed.

Lemma denotes_lookup h0 h es vs i e :
  Store.denotes h0 h es vs -> es !! i = Some e ->
  exists v, Store.board_at h e.2 v.
Proof.
  intros Hden Hi. destruct (Forall2_lookup_l _ _ _ _ _ Hden Hi) as (v & _ & _ & Hb & _).
  by exists v.2.
Qed.

Lemma related_apart_new h0 l state h es vs m state' (writes : list (Z * Z * cell)) :
  Store.board_at h0 l state ->
  related_apart h0 l vs (h, es) ->
  Forall (fun w => 0 <= w.1.1 /\ 0 <= w.1.2) writes ->
  foldl (fun s w => s ≫= fun s => set_cell s w.1.1 w.1.2 w.2)
        (Some state) writes = Some state' ->
  exists h1 l1 h',
    Store.deepcopy h l = Some (h1, l1) /\
    foldl (fun s w => s ≫= fun s => Store.set_cell s l1 w.1.1 w.1.2 w.2)
          (Some h1) writes = Some h' /\
    related_apart h0 l (vs ++ [(m, state')]) (h', es ++ [(m, l1)]).
Proof.
  intros Hb0 [Hrel [Hsep1 Hsep2]] Hnonneg Hwrites. simpl in *.
  pose proof Hrel as [Hsub0 Hden]. simpl in *.
  assert (Store.board_at h l state) as Hb by by eapply board_at_mono.
  destruct (store_new_successor h0 l state Hb0 h es vs m state' writes Hrel
              Hnonneg Hwrites) as (h1 & l1 & h' & Hcopy & Hfold & Hrel').
  exists h1, l1, h'. split_and!; [done|done|]. split; [done|]. simpl.
  destruct (deepcopy_spec h l state Hb) as (h1' & l1' & Hcopy' & Hsub1 & Hb1 & Ha1).
  rewrite Hcopy in Hcopy'. simplify_eq.
  destruct (store_writes_spec h l1' writes Hnonneg h1' state state')
    as (h'' & Hfold' & Hb' & Hsub' & Ha'); [done..|].
  rewrite Hfold in Hfold'. simplify_eq.
  assert (forall i e, es !! i = Some e -> is_Some (Store.rows_of h e.2)) as Hrows.
  { intros i e Hi. destruct (denotes_lookup _ _ _ _ _ _ Hden Hi) as (v & Hv).
    apply board_at_rows in Hv as (rows & -> & _). eauto. }
  assert (is_Some (Store.rows_of h l)) as Hrows_l.
  { apply board_at_rows in Hb as (rows & -> & _). eauto. }
  split.
  - intros i e [Hi|[_ Hi]]%lookup_app_Some.
    + eapply disjoint_boards_mono; eauto.
    + destruct (i - length es)%nat; simplify_eq/=. by eapply apart_disjoint.
  - intros i j e1 e2 Hne [Hi|[Hlen Hi]]%lookup_app_Some
      [Hj|[Hlen' Hj]]%lookup_app_Some.
    + eapply disjoint_boards_mono; eauto.
    + destruct (j - length es)%nat; simplify_eq/=.
      destruct (denotes_lookup _ _ _ _ _ _ Hden Hi) as (v & Hv).
      by eapply apart_disjoint.
    + destruct (i - length es)%nat; simplify_eq/=.
      destruct (denotes_lookup _ _ _ _ _ _ Hden Hj) as (v & Hv).
      apply disjoint_boards_sym. by eapply apart_disjoint.
    + destruct (i - length es)%nat eqn:Ei; simplify_eq/=.
      destruct (j - length es)%nat eqn:Ej; simplify_eq/=. lia.
Qed.

(** An assignment through one board leaves a board disjoint from it as it
    is. *)
Lemma store_set_cell_disjoint h h' l1 l2 state row col x :
  disjoint_boards h l1 l2 ->
  Store.set_cell h l1 row col x = Some h' ->
  Store.board_at h l2 state -> Store.board_at h' l2 state.
Proof.
  intros [Hne Hd] Hset (rows2 & Hrows2 & Hnd & Hcells).
  unfold Store.set_cell in Hset.
  destruct (Store.rows_of h l1) as [rows1|] eqn:Hrows1; simpl in Hset; [|done].
  destruct (py_index rows1 row) as [r|] eqn:Hr; simpl in Hset; [|done].
  destruct (Store.cells_of h r) as [cells|] eqn:Hcells_r; simpl in Hset; [|done].
  destruct (py_setitem cells col x) as [cells'|]; simpl in Hset; [|done].
  simplify_eq.
  assert (r ∈ rows1) as Hin.
  { unfold py_index in Hr. repeat case_match; try done;
      by eapply list_elem_of_lookup_2. }
  assert (r <> l2) as Hrl.
  { intros ->. apply cells_of_Some in Hcells_r. apply rows_of_Some in Hrows2.
    congruence. }
  exists rows2. split_and!; [|done|].
  - unfold Store.rows_of. by rewrite lookup_insert_ne.
  - apply mapM_Some. apply mapM_Some in Hcells.
    assert (Forall (fun r2 => r <> r2) rows2) as Hall.
    { apply Forall_forall. intros r2 Hr2 <-. by eapply Hd. }
    clear -Hall Hcells.
    induction Hcells as [|r2 c rs cs Hc _ IH]; [constructor|].
    apply Forall_cons in Hall as [Hne Hall].
    constructor; [|by apply IH].
    unfold Store.cells_of in *. by rewrite lookup_insert_ne.
Qed.
End succ_independence.

(** X5. The boards that succ returns are independent copies: an assignment to
    any cell of one of them leaves the input board and every other successor
    board as it is. *)
Theorem succ_independent p h l state turn_piece :
  wf_board state -> Store.board_at h l state ->
  exists h' successors,
    Store.succ p h l turn_piece = Some (h', successors) /\
    forall i e row col x h'',
      successors !! i = Some e ->
      Store.set_cell h' e.2 row col x = Some h'' ->
      Store.board_at h'' l state /\
      forall j e' state', j <> i -> successors !! j = Some e' ->
        Store.board_at h' e'.2 state' -> Store.board_at h'' e'.2 state'.
Proof.
  intros Hwf Hb.
  destruct (succ_wf p state turn_piece Hwf) as (vs & Hsucc & _).
  destruct (store_succ_keeps p h l state turn_piece (related_apart h l))
    with (vs := vs) as (h' & es & Hstore & Hrel & Hsep1 & Hsep2); try done.
  - split; [split; [done|constructor]|]. split; intros ? *; by rewrite ?lookup_nil.
  - intros vs' hs [[Hsub _] _]. by eapply board_at_mono.
  - intros. by eapply related_apart_new.
  - exists h', es. split; [done|]. simpl in *.
    intros i e row col x h'' Hi Hset. split.
    + eapply store_set_cell_disjoint; [|done|].
      * apply disjoint_boards_sym. by eapply Hsep1.
      * destruct Hrel as [Hsub _]. by eapply board_at_mono.
    + intros j e' state' Hne Hj Hbj.
      eapply store_set_cell_disjoint; [|done..]. by eapply (Hsep2 i j).
Qed.

Lemma succ_independent_witness :
  exists h' successors,
    Store.succ (player_of black 9) store_midgame.1 store_midgame.2 black
      = Some (h', successors) /\
    forall i e row col x h'',
      successors !! i = Some e ->
      Store.set_cell h' e.2 row col x = Some h'' ->
      Store.board_at h'' store_midgame.2 board_midgame /\
      forall j e' state', j <> i -> successors !! j = Some e' ->
        Store.board_at h' e'.2 state' -> Store.board_at h'' e'.2 state'.
Proof.
  apply (succ_independent (player_of black 9) store_midgame.1 store_midgame.2
           board_midgame black).
  - exact wf_board_midgame.
  - exact board_at_store_midgame.
Defined.
